(** * speculate_and_leak: a shallow embedding of [leak_byte] and [get_top_two]

    The development follows src/speculate_and_leak.cpp.  The program talks
    to the processor through a handful of primitives (cache-line flush,
    forced load, time-stamp counter, a busy-wait, a conditional branch that
    may be mis-speculated).  Those primitives are an interface
    ([Hardware]); every function of the source is written once, over an
    arbitrary implementation of that interface, with the machine state
    passed explicitly.  Machine integers are [Z] with the wrap-around of
    their C++ type written out. *)

From Stdlib Require Import ZArith Lia List.
From Stdlib.Strings Require Import String Byte.
From stdpp Require Import base tactics list numbers.

Local Open Scope Z_scope.

(** ** Machine integers *)

Module MachInt.

(** Two's complement reduction to a signed [n]-bit value, as x86-64
    compilers implement narrowing and signed arithmetic: keep the low
    [n] bits and read bit [n - 1] as the sign. *)
Definition wrap_to (n : Z) (z : Z) : Z :=
  let u := Z.land z (Z.ones n) in
  if Z.testbit u (n - 1) then u - Z.shiftl 1 n else u.

(** The three widths of the program, with mask and modulus spelled out. *)
Definition wrap_with (mask sign span : Z) (z : Z) : Z :=
  let u := Z.land z mask in
  if Z.testbit u sign then u - span else u.

Definition wrap8 : Z → Z := wrap_with 255 7 256.                      (* char *)
Definition wrap32 : Z → Z := wrap_with 4294967295 31 4294967296.      (* int *)
Definition wrap64 : Z → Z :=
  wrap_with 18446744073709551615 63 18446744073709551616.             (* int64_t *)

End MachInt.
Import MachInt.

(** ** [get_top_two]  (lines 25-36)

    Iterators into the score array are indices; [*i] is [deref l i].
    [std::tie(k, j) = std::tie(j, i)] assigns [k := j] first and
    [j := i] second, so the old best becomes the runner-up. *)

Definition deref (l : list Z) (i : nat) : Z := nth i l 0.

Definition top_step (l : list Z) (jk : nat * nat) (i : nat) : nat * nat :=
  let '(j, k) := jk in
  if deref l i >? deref l j then (i, j)
  else if deref l i >? deref l k then (j, i)
  else (j, k).

Definition get_top_two (l : list Z) : nat * nat :=
  foldl (top_step l) (0%nat, 0%nat) (seq 0 (length l)).

(** ** The processor as seen by the program *)

(** Addresses the program hands to the primitives. *)
Inductive addr : Type :=
| TimingArray (off : Z)      (* &timing_array[off] *)
| SlowSize                   (* slow_size *)
| PrivateData (off : Z).     (* &private_data[off] *)

(** [hw_rdtscp] yields the raw counter; [hw_squash i] stands for whatever
    the processor does transiently when the branch of line 83 resolves to
    not-taken with selected index [i]: architecturally nothing retires. *)
Class Hardware (M : Type) : Type := {
  hw_clflush : addr → M → M;       (* _mm_clflush *)
  hw_load : addr → M → M;          (* a retired load *)
  hw_rdtscp : M → Z * M;           (* __rdtscp *)
  hw_stall : Z → M → M;            (* the volatile busy loop of line 75 *)
  hw_squash : Z → M → M
}.

(** The value of a [uint8_t] after integer promotion. *)
Definition byte_val (b : byte) : Z := Z.of_N (Byte.to_N b).

(** C truthiness of an [int]. *)
Definition nonzero (z : Z) : bool := negb (z =? 0).

(** [for (int i = 0; i < n; ++i) s = body i s]. *)
Definition for_upto {S : Type} (n : Z) (body : Z → S → S) (s : S) : S :=
  foldl (λ acc i, body i acc) s (seqZ 0 n).

Definition CACHE_LINE_SIZE : Z := 512.
Definition NUM_LINES : Z := 256.

(** The lambda of lines 53-55. *)
Definition element_at_line (line : Z) : addr :=
  TimingArray (line * CACHE_LINE_SIZE).

(** [*slow_size]: allocated as [new int{1}] and never written. *)
Definition slow_size_value : Z := 1.

(** Line 90. *)
Definition shuffle (i : Z) : Z := Z.land (i * 167 + 13) 255.

(** Line 79. *)
Definition select_index (index i : Z) : Z :=
  if nonzero (Z.rem (i + 1) 10) then 0 else index.

(** Line 99: [std::accumulate] with the [int] initial value [0] keeps an
    [int] accumulator; each [acc + *it] is computed in [int64_t] and
    narrowed back to [int]. *)
Definition accumulate (times : list Z) : Z :=
  foldl (λ acc t, wrap32 (wrap64 (acc + t))) 0 times.

Definition t_avg_of (times : list Z) : Z := Z.quot (accumulate times) NUM_LINES.

(** The test of line 103 for candidate [i]. *)
Definition scores_hit (pd0 : Z) (t_avg : Z) (times : list Z) (i : Z) : bool :=
  (wrap64 (deref times (Z.to_nat i) * 2) <? t_avg) && negb (i =? pd0).

(** Lines 102-104. *)
Definition score_pass (pd0 : Z) (t_avg : Z) (times scores : list Z) : list Z :=
  for_upto NUM_LINES
    (λ i sc, if scores_hit pd0 t_avg times i
             then <[Z.to_nat i := wrap32 (deref sc (Z.to_nat i) + 1)]> sc
             else sc)
    scores.

(** The arrays and the iterator pair that live across rounds. *)
Record locals : Type := Locals {
  times : list Z;          (* std::array<int64_t, 256> *)
  scores : list Z;         (* std::array<int, 256> *)
  top : nat * nat          (* (top.first, top.second) as indices *)
}.

(** Line 109. *)
Definition clear_winner (v : locals) : bool :=
  deref (scores v) (fst (top v))
  >? wrap32 (wrap32 (deref (scores v) (snd (top v)) * 2) + 200).

(** What a call produces: the returned [char], what was printed on
    [std::cout], and how many iterations of the loop of line 66 were
    completed when the function returned. *)
Record outcome : Type := Outcome {
  ret : Z;
  out : string;
  rounds : Z
}.

Definition unlikely_tag : string := "[[[unlikely]]]:".

(** [return top.first - scores.begin()] converted to [char]. *)
Definition return_index (v : locals) : Z := wrap8 (Z.of_nat (fst (top v))).

Definition MAX_RUNS : nat := 1000.

Definition init_locals : locals :=
  Locals (replicate 256 0) (replicate 256 0) (0%nat, 0%nat).

Section LeakByte.
Context {M : Type} {HW : Hardware M}.
Variable private_data : Z → byte.
Variable index : Z.

(** Lines 16-18. *)
Definition force_read (p : addr) (m : M) : M := hw_load p m.

(** Lines 20-23. *)
Definition cpu_time (m : M) : Z * M :=
  let '(t, m') := hw_rdtscp m in (wrap64 t, m').

(** Lines 69-70. *)
Definition flush_lines (m : M) : M :=
  for_upto NUM_LINES (λ i m, hw_clflush (element_at_line i) m) m.

(** Lines 74-84, one iteration of the training loop. *)
Definition train_iter (i : Z) (m : M) : M :=
  let m := hw_clflush SlowSize m in
  let m := hw_stall 1000 m in
  let local_index := select_index index i in
  let m := hw_load SlowSize m in
  if local_index <? slow_size_value then
    let m := hw_load (PrivateData local_index) m in
    force_read (element_at_line (byte_val (private_data local_index))) m
  else hw_squash local_index m.

(** Lines 73-85. *)
Definition train (m : M) : M := for_upto 500 train_iter m.

(** Lines 90-96, one iteration of the measurement loop. *)
Definition measure_iter (i : Z) (st : M * list Z) : M * list Z :=
  let '(m, ts) := st in
  let shuffled_i := shuffle i in
  let timing_entry := element_at_line shuffled_i in
  let '(start, m) := cpu_time m in
  let m := force_read timing_entry m in
  let '(stop, m) := cpu_time m in
  (m, <[Z.to_nat shuffled_i := wrap64 (stop - start)]> ts).

(** Lines 89-97. *)
Definition measure (m : M) (ts : list Z) : M * list Z :=
  for_upto NUM_LINES measure_iter (m, ts).

(** Lines 68-106: one iteration of the outer loop up to the update of
    [top]. *)
Definition round (st : M * locals) : M * locals :=
  let '(m, v) := st in
  let m := flush_lines m in
  let m := train m in
  let '(m, ts) := measure m (times v) in
  let t_avg := t_avg_of ts in
  let sc := score_pass (byte_val (private_data 0)) t_avg ts (scores v) in
  (m, Locals ts sc (get_top_two sc)).

(** The samples a round leaves in [times]. *)
Definition round_times (m : M) (v : locals) : list Z :=
  snd (measure (train (flush_lines m)) (times v)).

(** Lines 66-114: the loop with [fuel] iterations left, [run] being the
    loop counter. *)
Fixpoint rounds_from (fuel : nat) (run : Z) (st : M * locals) : outcome * M :=
  match fuel with
  | O => (Outcome (return_index (snd st)) unlikely_tag run, fst st)
  | S fuel' =>
      let st' := round st in
      if clear_winner (snd st')
      then (Outcome (return_index (snd st')) EmptyString (run + 1), fst st')
      else rounds_from fuel' (run + 1) st'
  end.

(** Lines 38-115.  The fill of [timing_array] (line 51) and the
    allocation of [slow_size] (line 59) only shape the machine the first
    round starts from, which is arbitrary here; the first thing a round
    does is to flush every probe line. *)
Definition leak_byte (m : M) : outcome * M :=
  rounds_from MAX_RUNS 0 (m, init_locals).

(** The state after [r] completed rounds, early exit disregarded. *)
Definition after_rounds (r : nat) (m : M) : M * locals :=
  Nat.iter r round (m, init_locals).

End LeakByte.

(** ** Two implementations of the interface *)

(** *** The architectural trace

    The tracer retires every primitive into a log and has no
    micro-architectural state: a squashed branch body leaves no load in
    the log, only the fact that the branch was resolved not-taken. *)
Inductive event : Type :=
| EvFlush (a : addr)
| EvLoad (a : addr)
| EvRdtscp
| EvStall (n : Z)
| EvNotTaken (local_index : Z).

#[export] Instance tracer : Hardware (list event) := {|
  hw_clflush a t := t ++ [EvFlush a];
  hw_load a t := t ++ [EvLoad a];
  hw_rdtscp t := (Z.of_nat (length t), t ++ [EvRdtscp]);
  hw_stall n t := t ++ [EvStall n];
  hw_squash i t := t ++ [EvNotTaken i]
|}.

(** *** A small cache machine

    256 probe lines, one bit each (set: the line is cached), and a cycle
    counter.  A load of a cached probe line costs [hit_cycles], of an
    evicted one [miss_cycles].  A squashed branch body still pulls in the
    probe line selected by the byte it read: the leak. *)
Record cache_machine : Type := CacheMachine {
  hot : Z;
  now : Z
}.

Definition hit_cycles : Z := 40.
Definition miss_cycles : Z := 300.

Definition line_of (off : Z) : Z := off / CACHE_LINE_SIZE.

Definition cm_load (a : addr) (c : cache_machine) : cache_machine :=
  match a with
  | TimingArray off =>
      CacheMachine (Z.setbit (hot c) (line_of off))
        (now c + (if Z.testbit (hot c) (line_of off) then hit_cycles else miss_cycles))
  | _ => CacheMachine (hot c) (now c + hit_cycles)
  end.

Definition cm_clflush (a : addr) (c : cache_machine) : cache_machine :=
  match a with
  | TimingArray off => CacheMachine (Z.clearbit (hot c) (line_of off)) (now c + 1)
  | _ => CacheMachine (hot c) (now c + 1)
  end.

Definition cache_hw (mem : Z → byte) : Hardware cache_machine := {|
  hw_clflush := cm_clflush;
  hw_load := cm_load;
  hw_rdtscp c := (now c, CacheMachine (hot c) (now c + 30));
  hw_stall n c := CacheMachine (hot c) (now c + n);
  hw_squash i c := CacheMachine (Z.setbit (hot c) (byte_val (mem i))) (now c + 1)
|}.

Definition cold : cache_machine := CacheMachine 0 0.

(** Memory contents used in the examples: [private_data[0]] holds [b0],
    every other offset holds [secret]. *)
Definition mem_of (b0 secret : byte) (off : Z) : byte :=
  if off =? 0 then b0 else secret.

(** ** Vocabulary of the statements *)

(** [j] is the earliest position holding the largest value of [l]. *)
Definition is_first_max (l : list Z) (j : nat) : Prop :=
  (j < length l)%nat
  ∧ (∀ i, (i < length l)%nat → deref l i ≤ deref l j)
  ∧ (∀ i, (i < j)%nat → deref l i < deref l j).

(** [k] is the earliest position, [j] set aside, holding the largest of
    the remaining values. *)
Definition is_first_max_except (l : list Z) (j k : nat) : Prop :=
  (k < length l)%nat ∧ k ≠ j
  ∧ (∀ i, (i < length l)%nat → i ≠ j → deref l i ≤ deref l k)
  ∧ (∀ i, (i < k)%nat → i ≠ j → deref l i < deref l k).

(** The score-gap condition read on the score vector itself: position [j]
    beats twice every other entry by more than 200, that is,
    best > 2 * second-best + 200 with the best at [j]. *)
Definition score_gap_at (l : list Z) (j : nat) : Prop :=
  (j < length l)%nat
  ∧ ∀ i, (i < length l)%nat → i ≠ j → deref l j > 2 * deref l i + 200.

Definition score_gap (l : list Z) : Prop := ∃ j, score_gap_at l j.

(** What the scan of [get_top_two] knows after [n] elements: [j] is the
    earliest maximum of the prefix; [k] is either still the start of the
    range (as long as [j] is) or the earliest maximum of the rest. *)
Definition top_inv (l : list Z) (n : nat) (jk : nat * nat) : Prop :=
  let '(j, k) := jk in
  (j = 0 ∨ j < n)%nat
  ∧ (∀ i, (i < n)%nat → deref l i ≤ deref l j)
  ∧ (∀ i, (i < j)%nat → deref l i < deref l j)
  ∧ ((j = 0%nat ∧ k = 0%nat)
     ∨ (j ≠ 0%nat ∧ (k < n)%nat ∧ k ≠ j
        ∧ (∀ i, (i < n)%nat → i ≠ j → deref l i ≤ deref l k)
        ∧ (∀ i, (i < k)%nat → i ≠ j → deref l i < deref l k))).

(** The exact sum of a sample vector. *)
Definition sum_of (ts : list Z) : Z := foldr Z.add 0 ts.

(** The inverse of [shuffle] on [0 .. 255]: 23 * 167 = 15 * 256 + 1. *)
Definition unshuffle (k : Z) : Z := Z.land ((k - 13) * 23) 255.

(** The order in which the measurement pass visits the probe lines. *)
Definition visit_order : list Z := shuffle <$> seqZ 0 NUM_LINES.

(** One timed probe of the measurement pass: the latency recorded at
    iteration [i] and the machine it leaves. *)
Definition probe {M : Type} {HW : Hardware M} (i : Z) (m : M) : Z * M :=
  let '(start, m) := cpu_time m in
  let m := force_read (element_at_line (shuffle i)) m in
  let '(stop, m) := cpu_time m in
  (wrap64 (stop - start), m).

(** The machine after the first [n] probes. *)
Definition after_probes {M : Type} {HW : Hardware M} (n : Z) (m : M) : M :=
  for_upto n (λ i m, snd (probe i m)) m.

(** What holds of the locals once [r] rounds are complete. *)
Definition wf_locals (r : Z) (v : locals) : Prop :=
  length (times v) = 256%nat
  ∧ length (scores v) = 256%nat
  ∧ (∀ i, (i < 256)%nat → 0 ≤ deref (scores v) i ≤ r)
  ∧ top v = get_top_two (scores v).

(** What one training iteration retires, and what one timed probe
    retires. *)
Definition train_events (private_data : Z → byte) (index i : Z) : list event :=
  [EvFlush SlowSize; EvStall 1000; EvLoad SlowSize]
  ++ (if select_index index i <? slow_size_value
      then [EvLoad (PrivateData (select_index index i));
            EvLoad (element_at_line (byte_val (private_data (select_index index i))))]
      else [EvNotTaken (select_index index i)]).

Definition probe_events (i : Z) : list event :=
  [EvRdtscp; EvLoad (element_at_line (shuffle i)); EvRdtscp].

(** Busy-waits in a trace: the training loop runs one per iteration. *)
Definition is_stall (e : event) : bool :=
  match e with EvStall _ => true | _ => false end.

Definition count_stalls (t : list event) : nat := length (List.filter is_stall t).

(** The iterations of the training loop that select the target index. *)
Definition target_iterations : list Z :=
  filter (λ i, (i + 1) mod 10 = 0) (seqZ 0 500).

(** The cache machine with its cycle counter advanced by [d]. *)
Definition cm_shift (d : Z) (c : cache_machine) : cache_machine :=
  CacheMachine (hot c) (now c + d).

(** All 256 probe lines cached. *)
Definition all_hot : Z := Z.ones 256.

(** Three memories for the cache machine, with the samples every round
    then records: the secret 'H' behind a zero first byte; a secret equal
    to the first byte; a zero secret behind a non-zero first byte. *)
Definition mem_H : Z → byte := mem_of x00 x48.
Definition mem_same : Z → byte := mem_of x05 x05.
Definition mem_nul : Z → byte := mem_of x05 x00.

Definition samples_H : list Z := <[72%nat := 70]> (<[0%nat := 70]> (replicate 256 330)).
Definition samples_same : list Z := <[5%nat := 70]> (replicate 256 330).
Definition samples_nul : list Z := <[5%nat := 70]> (<[0%nat := 70]> (replicate 256 330)).

(** The target index used by [main] for the first protected byte. *)
Definition first_target : Z := 4096.

(** A sample vector with one probe interrupted for 2^31 cycles. *)
Definition samples_preempted : list Z := <[13%nat := 2147483648]> (replicate 256 100).

(** The score vector after one round in which only candidate 0 was fast. *)
Definition scores_first_leads : list Z := <[0%nat := 1]> (replicate 256 0).

(** Two small ranges: the maximum first reached at the second element,
    and at the first. *)
Definition range_late_max : list Z := [4; 9; 9; 2].
Definition range_first_max : list Z := [9; 4; 9; 2].

(** The same machine with its time-stamp counter ahead by [d] cycles. *)
Definition offset_clock {M : Type} (HW : Hardware M) (d : Z) : Hardware M := {|
  hw_clflush := hw_clflush;
  hw_load := hw_load;
  hw_rdtscp m := let '(t, m') := hw_rdtscp m in (t + d, m');
  hw_stall := hw_stall;
  hw_squash := hw_squash
|}.

(** The tracer with an arbitrary time-stamp counter: [clock t] is what
    [__rdtscp] returns after the history [t].  Every timing behaviour is
    some [clock]. *)
Definition clocked_tracer (clock : list event → Z) : Hardware (list event) := {|
  hw_clflush a t := t ++ [EvFlush a];
  hw_load a t := t ++ [EvLoad a];
  hw_rdtscp t := (clock t, t ++ [EvRdtscp]);
  hw_stall n t := t ++ [EvStall n];
  hw_squash i t := t ++ [EvNotTaken i]
|}.

(** The size of [timing_array] (line 46). *)
Definition TIMING_ARRAY_SIZE : Z := NUM_LINES * CACHE_LINE_SIZE.

(** What the flush loop of lines 69-70 retires, and what a whole round
    retires. *)
Definition flush_events : list event :=
  concat (map (λ i, [EvFlush (element_at_line i)]) (seqZ 0 NUM_LINES)).

Definition round_events (private_data : Z → byte) (index : Z) : list event :=
  flush_events
  ++ concat (map (train_events private_data index) (seqZ 0 500))
  ++ concat (map probe_events (seqZ 0 NUM_LINES)).

(** An event that touches [timing_array] does so at the start of one of
    its 256 lines. *)
Definition probe_in_bounds (e : event) : Prop :=
  match e with
  | EvFlush (TimingArray off) | EvLoad (TimingArray off) =>
      0 ≤ off < TIMING_ARRAY_SIZE ∧ off mod CACHE_LINE_SIZE = 0
  | _ => True
  end.


(** The samples the cache machine records in every round when the first
    byte of [private_data] is [b0] and the byte at the target is [s]:
    lines [b0] and [s] hit, all others miss. *)
Definition cache_samples (b0 s : Z) : list Z :=
  <[Z.to_nat s := 70]> (<[Z.to_nat b0 := 70]> (replicate 256 330)).

(** ** [main] (lines 117-132) *)

Definition PAGE_SIZE : Z := 4096.

(** The bytes [strcpy] writes at [real_start]: "Hello\n" and its
    terminator. *)
Definition hello_bytes : list byte := [x48; x65; x6c; x6c; x6f; x0a; x00].

(** [private_data] as [main] sets it up: two value-initialised pages with
    the string copied to the start of the second one.  Offsets outside
    the two pages are not part of the object; they read as zero here. *)
Definition main_memory (off : Z) : byte :=
  if (PAGE_SIZE <=? off) && (off <? PAGE_SIZE + 7)
  then nth (Z.to_nat (off - PAGE_SIZE)) hello_bytes x00
  else x00.

(** [main] either dies with an uncaught exception or returns what it
    wrote to [std::cout] and the machine it leaves. *)
Inductive main_result (M : Type) : Type :=
| Thrown (what : string)
| Returned (stdout : string) (m : M).

Arguments Thrown {M} what.
Arguments Returned {M} stdout m.

(** [std::cout << c] for a [char]. *)
Definition put_char (c : Z) : string :=
  String (Ascii.ascii_of_N (Z.to_N (c mod 256))) EmptyString.

Section Main.
Context {M : Type} {HW : Hardware M}.

(** Line 131: the tag, if any, is printed inside the call, the returned
    character after it. *)
Definition main_iter (i : Z) (st : string * M) : string * M :=
  let '(so, m) := st in
  let '(res, m') := leak_byte main_memory (PAGE_SIZE + i) m in
  (String.append so (String.append (out res) (put_char (ret res))), m').

(** Lines 117-132; [mprotect_result] is what [mprotect] returns. *)
Definition main (mprotect_result : Z) (m : M) : main_result M :=
  if mprotect_result =? -1 then Thrown "mprotect failed"
  else
    let '(so, m') := for_upto 6 main_iter (EmptyString, m) in
    Returned so m'.

End Main.




(** The six characters of the string. *)
Definition hello_line : string :=
  String (Ascii.ascii_of_N 72) (String (Ascii.ascii_of_N 101)
    (String (Ascii.ascii_of_N 108) (String (Ascii.ascii_of_N 108)
      (String (Ascii.ascii_of_N 111) (String (Ascii.ascii_of_N 10) EmptyString))))).

(** * Properties *)

(** ** Machine integers *)

Module MachIntFacts.

Lemma testbit_top n u :
  0 < n → 0 ≤ u < 2 ^ n → Z.testbit u (n - 1) = (2 ^ (n - 1) <=? u).
Proof.
  intros Hn Hu.
  assert (Hp : 2 ^ n = 2 * 2 ^ (n - 1)).
  { rewrite <- Z.pow_succ_r by lia. f_equal. lia. }
  assert (0 < 2 ^ (n - 1)) by (apply Z.pow_pos_nonneg; lia).
  rewrite Z.testbit_odd, Z.shiftr_div_pow2 by lia.
  destruct (Z.leb_spec (2 ^ (n - 1)) u) as [Hle | Hlt].
  - rewrite <- (Z.div_unique u (2 ^ (n - 1)) 1 (u - 2 ^ (n - 1))); [done | lia | lia].
  - rewrite Z.div_small by lia. done.
Qed.

(** [wrap_to] is the usual centred remainder. *)
Lemma wrap_to_spec n z :
  0 < n →
  wrap_to n z = (z + 2 ^ (n - 1)) mod 2 ^ n - 2 ^ (n - 1).
Proof.
  intros Hn. unfold wrap_to. cbv zeta.
  assert (Hp : 2 ^ n = 2 * 2 ^ (n - 1)).
  { rewrite <- Z.pow_succ_r by lia. f_equal. lia. }
  assert (0 < 2 ^ (n - 1)) by (apply Z.pow_pos_nonneg; lia).
  rewrite Z.land_ones by lia.
  pose proof (Z.mod_pos_bound z (2 ^ n) ltac:(lia)) as Hu.
  rewrite testbit_top by (done || lia).
  rewrite Z.shiftl_1_l.
  pose proof (Z.div_mod z (2 ^ n) ltac:(lia)) as Hz.
  destruct (Z.leb_spec (2 ^ (n - 1)) (z mod 2 ^ n)) as [Hle | Hlt].
  - rewrite <- (Z.mod_unique (z + 2 ^ (n - 1)) (2 ^ n) (z / 2 ^ n + 1)
               (z mod 2 ^ n - 2 ^ (n - 1))); [lia | left; lia | lia].
  - rewrite <- (Z.mod_unique (z + 2 ^ (n - 1)) (2 ^ n) (z / 2 ^ n)
               (z mod 2 ^ n + 2 ^ (n - 1))); [lia | left; lia | lia].
Qed.

Lemma wrap_to_id n z :
  0 < n → - 2 ^ (n - 1) ≤ z < 2 ^ (n - 1) → wrap_to n z = z.
Proof.
  intros Hn Hz. rewrite wrap_to_spec by done.
  assert (Hp : 2 ^ n = 2 * 2 ^ (n - 1)).
  { rewrite <- Z.pow_succ_r by lia. f_equal. lia. }
  rewrite Z.mod_small; lia.
Qed.

Lemma wrap_to_range n z :
  0 < n → - 2 ^ (n - 1) ≤ wrap_to n z < 2 ^ (n - 1).
Proof.
  intros Hn. rewrite wrap_to_spec by done.
  assert (Hp : 2 ^ n = 2 * 2 ^ (n - 1)).
  { rewrite <- Z.pow_succ_r by lia. f_equal. lia. }
  assert (0 < 2 ^ (n - 1)) by (apply Z.pow_pos_nonneg; lia).
  pose proof (Z.mod_pos_bound (z + 2 ^ (n - 1)) (2 ^ n) ltac:(lia)). lia.
Qed.

Lemma wrap8_eq z : wrap8 z = wrap_to 8 z.
Proof. reflexivity. Qed.

Lemma wrap32_eq z : wrap32 z = wrap_to 32 z.
Proof. reflexivity. Qed.

Lemma wrap64_eq z : wrap64 z = wrap_to 64 z.
Proof. reflexivity. Qed.

Lemma wrap32_id z : - 2 ^ 31 ≤ z < 2 ^ 31 → wrap32 z = z.
Proof. intros Hz. rewrite wrap32_eq. apply wrap_to_id; [lia | exact Hz]. Qed.

Lemma wrap64_id z : - 2 ^ 63 ≤ z < 2 ^ 63 → wrap64 z = z.
Proof. intros Hz. rewrite wrap64_eq. apply wrap_to_id; [lia | exact Hz]. Qed.

Lemma wrap32_range z : - 2 ^ 31 ≤ wrap32 z < 2 ^ 31.
Proof. rewrite wrap32_eq. apply (wrap_to_range 32). lia. Qed.

Lemma wrap64_range z : - 2 ^ 63 ≤ wrap64 z < 2 ^ 63.
Proof. rewrite wrap64_eq. apply (wrap_to_range 64). lia. Qed.

(** A [char] holding an index below 256 carries it as its bit pattern. *)
Lemma wrap8_byte z : 0 ≤ z < 256 → wrap8 z mod 256 = z.
Proof.
  intros Hz. rewrite wrap8_eq, wrap_to_spec by lia.
  change (2 ^ (8 - 1)) with 128. change (2 ^ 8) with 256.
  rewrite Zminus_mod_idemp_l.
  replace (z + 128 - 128) with z by lia.
  apply Z.mod_small; lia.
Qed.

(** Narrowing after a 64-bit wrap is narrowing. *)
Lemma wrap32_wrap64 z : wrap32 (wrap64 z) = wrap32 z.
Proof.
  rewrite (wrap32_eq z), (wrap32_eq (wrap64 z)), wrap64_eq.
  rewrite !wrap_to_spec by lia.
  change (2 ^ (64 - 1)) with (2 ^ 63). change (2 ^ (32 - 1)) with (2 ^ 31).
  f_equal.
  replace ((z + 2 ^ 63) mod 2 ^ 64 - 2 ^ 63 + 2 ^ 31)
    with ((z + 2 ^ 63) mod 2 ^ 64 + (2 ^ 31 - 2 ^ 63)) by lia.
  rewrite <- (Zplus_mod_idemp_l ((z + 2 ^ 63) mod 2 ^ 64)).
  rewrite Z.mod_mod_divide by (exists (2 ^ 32); lia).
  rewrite Zplus_mod_idemp_l.
  replace (z + 2 ^ 63 + (2 ^ 31 - 2 ^ 63)) with (z + 2 ^ 31) by lia.
  done.
Qed.

End MachIntFacts.
Import MachIntFacts.

(** ** Loops *)

Lemma for_upto_0 {S : Type} (body : Z → S → S) (s : S) : for_upto 0 body s = s.
Proof. reflexivity. Qed.

Lemma for_upto_succ {S : Type} (n : nat) (body : Z → S → S) (s : S) :
  for_upto (Z.of_nat (Datatypes.S n)) body s
  = body (Z.of_nat n) (for_upto (Z.of_nat n) body s).
Proof.
  unfold for_upto. rewrite seqZ_S, foldl_snoc. by rewrite Z.add_0_l.
Qed.

(** Loop invariants: [P i s] holds before iteration [i]. *)
Lemma for_upto_ind {S : Type} (P : Z → S → Prop) (n : Z) (body : Z → S → S) (s : S) :
  0 ≤ n →
  P 0 s →
  (∀ i t, 0 ≤ i < n → P i t → P (i + 1) (body i t)) →
  P n (for_upto n body s).
Proof.
  intros Hn H0 Hstep.
  rewrite <- (Z2Nat.id n) by done.
  assert (Hle : (Z.to_nat n ≤ Z.to_nat n)%nat) by lia.
  revert Hle. generalize (Z.to_nat n) at 1 3 4 as k.
  induction k as [| k IH]; intros Hk.
  - exact H0.
  - rewrite for_upto_succ.
    replace (Z.of_nat (Datatypes.S k)) with (Z.of_nat k + 1) by lia.
    apply Hstep; [lia |]. apply IH. lia.
Qed.

(** ** [get_top_two] *)

Section TopTwo.
Variable l : list Z.

Lemma top_inv_init : top_inv l 0 (0%nat, 0%nat).
Proof.
  split; [by left |]. split; [intros; lia |]. split; [intros; lia |]. by left.
Qed.

Lemma top_inv_step n jk : top_inv l n jk → top_inv l (S n) (top_step l jk n).
Proof.
  destruct jk as [j k]. unfold top_inv, top_step.
  intros (Hj & Hmax & Hfirst & Hk).
  destruct (Z.gtb_spec (deref l n) (deref l j)) as [Hgt | Hle].
  - (* the new element becomes the best, the old best the runner-up *)
    assert (n ≠ 0%nat) by (intros ->; destruct Hj as [-> | ?]; lia).
    split; [right; lia |]. split.
    { intros i Hi. destruct (decide (i = n)) as [-> | ?]; [lia |].
      specialize (Hmax i). lia. }
    split. { intros i Hi. specialize (Hmax i). lia. }
    right. split; [done |]. split; [lia |]. split; [lia |]. split.
    + intros i Hi Hne. apply Hmax. lia.
    + intros i Hi _. by apply Hfirst.
  - destruct (Z.gtb_spec (deref l n) (deref l k)) as [Hgt | Hle'].
    + (* the new element becomes the runner-up *)
      destruct Hk as [[-> ->] | (Hj0 & Hkn & Hkj & Hrest & Hrfirst)]; [lia |].
      split; [right; lia |]. split.
      { intros i Hi. destruct (decide (i = n)) as [-> | ?]; [lia |].
        apply Hmax. lia. }
      split; [done |].
      right. split; [done |]. split; [lia |]. split; [lia |]. split.
      * intros i Hi Hne. destruct (decide (i = n)) as [-> | ?]; [lia |].
        specialize (Hrest i). lia.
      * intros i Hi Hne. specialize (Hrest i). lia.
    + (* nothing moves *)
      split; [lia |]. split.
      { intros i Hi. destruct (decide (i = n)) as [-> | ?]; [lia |].
        apply Hmax. lia. }
      split; [done |].
      destruct Hk as [[-> ->] | (Hj0 & Hkn & Hkj & Hrest & Hrfirst)]; [by left |].
      right. split; [done |]. split; [lia |]. split; [done |]. split.
      * intros i Hi Hne. destruct (decide (i = n)) as [-> | ?]; [lia |].
        apply Hrest; [lia | done].
      * done.
Qed.

Lemma top_inv_scan n : top_inv l n (foldl (top_step l) (0%nat, 0%nat) (seq 0 n)).
Proof.
  induction n as [| n IH]; [apply top_inv_init |].
  rewrite seq_S, foldl_snoc. simpl. by apply top_inv_step.
Qed.

Lemma get_top_two_inv : top_inv l (length l) (get_top_two l).
Proof. apply top_inv_scan. Qed.

(** The first component is always the earliest maximum. *)
Lemma get_top_two_best : l ≠ [] → is_first_max l (fst (get_top_two l)).
Proof.
  intros Hne. pose proof get_top_two_inv as Hinv.
  destruct (get_top_two l) as [j k]. simpl.
  destruct Hinv as (Hj & Hmax & Hfirst & _).
  assert (0 < length l)%nat by (destruct l; [done | simpl; lia]).
  split; [lia |]. done.
Qed.

(** When the first element is not a maximum, the second component is the
    earliest maximum of the rest. *)
Lemma get_top_two_second :
  fst (get_top_two l) ≠ 0%nat →
  is_first_max_except l (fst (get_top_two l)) (snd (get_top_two l)).
Proof.
  intros Hne. pose proof get_top_two_inv as Hinv.
  destruct (get_top_two l) as [j k]. simpl in *.
  destruct Hinv as (_ & _ & _ & [[-> _] | (_ & Hk & Hkj & Hrest & Hrfirst)]); done.
Qed.

(** When the first element is a maximum, both components point at it. *)
Lemma get_top_two_first_is_max :
  fst (get_top_two l) = 0%nat → get_top_two l = (0%nat, 0%nat).
Proof.
  intros Hj. pose proof get_top_two_inv as Hinv.
  destruct (get_top_two l) as [j k]. simpl in *. subst j.
  destruct Hinv as (_ & _ & _ & [[_ ->] | (? & _)]); done.
Qed.

End TopTwo.

(** ** Arrays *)

Lemma deref_insert_eq (l : list Z) (i : nat) (x : Z) :
  (i < length l)%nat → deref (<[i:=x]> l) i = x.
Proof.
  intros Hi. unfold deref. by rewrite nth_lookup, list_lookup_insert_eq.
Qed.

Lemma deref_insert_ne (l : list Z) (i j : nat) (x : Z) :
  i ≠ j → deref (<[i:=x]> l) j = deref l j.
Proof.
  intros Hne. unfold deref. by rewrite !nth_lookup, list_lookup_insert_ne.
Qed.

Lemma deref_replicate (n i : nat) (x : Z) :
  (i < n)%nat → deref (replicate n x) i = x.
Proof.
  intros Hi. unfold deref. by rewrite nth_lookup, lookup_replicate_2.
Qed.

Lemma deref_ext (l1 l2 : list Z) :
  length l1 = length l2 →
  (∀ i, (i < length l1)%nat → deref l1 i = deref l2 i) →
  l1 = l2.
Proof. intros Hlen Hnth. by apply (nth_ext l1 l2 0 0). Qed.

(** ** The shuffle of line 90 *)

Lemma shuffle_mod i : shuffle i = (167 * i + 13) mod 256.
Proof.
  unfold shuffle. change 255 with (Z.ones 8).
  rewrite Z.land_ones by lia. f_equal. lia.
Qed.

Lemma unshuffle_mod k : unshuffle k = (23 * (k - 13)) mod 256.
Proof.
  unfold unshuffle. change 255 with (Z.ones 8).
  rewrite Z.land_ones by lia. f_equal. lia.
Qed.

Lemma shuffle_range i : 0 ≤ shuffle i < 256.
Proof. rewrite shuffle_mod. apply Z.mod_pos_bound. lia. Qed.

Lemma unshuffle_range k : 0 ≤ unshuffle k < 256.
Proof. rewrite unshuffle_mod. apply Z.mod_pos_bound. lia. Qed.

Lemma unshuffle_shuffle i : 0 ≤ i < 256 → unshuffle (shuffle i) = i.
Proof.
  intros Hi. rewrite unshuffle_mod, shuffle_mod.
  pose proof (Z.div_mod (167 * i + 13) 256 ltac:(lia)) as Hdm.
  pose proof (Z.mod_pos_bound (167 * i + 13) 256 ltac:(lia)) as Hr.
  symmetry.
  apply (Z.mod_unique _ _ (15 * i - 23 * ((167 * i + 13) / 256))); [left; lia | lia].
Qed.

Lemma shuffle_unshuffle k : 0 ≤ k < 256 → shuffle (unshuffle k) = k.
Proof.
  intros Hk. rewrite unshuffle_mod, shuffle_mod.
  pose proof (Z.div_mod (23 * (k - 13)) 256 ltac:(lia)) as Hdm.
  pose proof (Z.mod_pos_bound (23 * (k - 13)) 256 ltac:(lia)) as Hr.
  symmetry.
  apply (Z.mod_unique _ _ (15 * (k - 13) - 167 * ((23 * (k - 13)) / 256)));
    [left; lia | lia].
Qed.

Lemma shuffle_inj i j :
  0 ≤ i < 256 → 0 ≤ j < 256 → shuffle i = shuffle j → i = j.
Proof.
  intros Hi Hj Heq.
  rewrite <- (unshuffle_shuffle i), <- (unshuffle_shuffle j) by done.
  by rewrite Heq.
Qed.

Lemma visit_order_perm : visit_order ≡ₚ seqZ 0 256.
Proof.
  unfold visit_order, NUM_LINES. apply NoDup_Permutation.
  - apply NoDup_fmap_2_strong; [| apply NoDup_seqZ].
    intros i j Hi%elem_of_seqZ Hj%elem_of_seqZ. apply shuffle_inj; lia.
  - apply NoDup_seqZ.
  - intros k. rewrite list_elem_of_fmap, elem_of_seqZ. split.
    + intros (i & -> & _). pose proof (shuffle_range i). lia.
    + intros Hk. exists (unshuffle k). split.
      * symmetry. apply shuffle_unshuffle. lia.
      * apply elem_of_seqZ. pose proof (unshuffle_range k). lia.
Qed.

(** ** The mean of line 99 *)

Lemma accumulate_from_small (ts : list Z) (a : Z) :
  Forall (λ t, 0 ≤ t < 2 ^ 23) ts →
  0 ≤ a →
  a + (2 ^ 23 - 1) * Z.of_nat (length ts) < 2 ^ 31 →
  foldl (λ acc t, wrap32 (wrap64 (acc + t))) a ts = a + sum_of ts.
Proof.
  intros Hts. revert a. induction Hts as [| t ts Ht Hts IH]; intros a Ha Hbound.
  - simpl. lia.
  - simpl in *. rewrite wrap32_wrap64, wrap32_id by lia.
    rewrite IH by lia. lia.
Qed.

Lemma sum_of_nonneg (ts : list Z) : Forall (λ t, 0 ≤ t < 2 ^ 23) ts → 0 ≤ sum_of ts.
Proof. induction 1; simpl; lia. Qed.

(** For latencies below 2^23 cycles the mean is the exact quotient. *)
Lemma t_avg_exact_small (ts : list Z) :
  length ts = 256%nat →
  Forall (λ t, 0 ≤ t < 2 ^ 23) ts →
  t_avg_of ts = sum_of ts / 256.
Proof.
  intros Hlen Hts. unfold t_avg_of, accumulate.
  rewrite accumulate_from_small by (done || (rewrite Hlen; lia)).
  rewrite Z.add_0_l. apply Z.quot_div_nonneg; [by apply sum_of_nonneg | done].
Qed.

(** ** The scoring pass of lines 102-104 *)

Lemma score_pass_spec (pd0 t : Z) (ts sc : list Z) :
  length sc = 256%nat →
  length (score_pass pd0 t ts sc) = 256%nat
  ∧ ∀ i, 0 ≤ i < 256 →
      deref (score_pass pd0 t ts sc) (Z.to_nat i)
      = if scores_hit pd0 t ts i
        then wrap32 (deref sc (Z.to_nat i) + 1)
        else deref sc (Z.to_nat i).
Proof.
  intros Hlen. unfold score_pass.
  pose (P := λ (n : Z) (s : list Z),
    length s = 256%nat
    ∧ ∀ i, 0 ≤ i < 256 →
        deref s (Z.to_nat i)
        = if (i <? n) && scores_hit pd0 t ts i
          then wrap32 (deref sc (Z.to_nat i) + 1)
          else deref sc (Z.to_nat i)).
  assert (HP : P NUM_LINES (for_upto NUM_LINES
    (λ i s, if scores_hit pd0 t ts i
            then <[Z.to_nat i := wrap32 (deref s (Z.to_nat i) + 1)]> s
            else s) sc)).
  { apply for_upto_ind; [done | |].
    - split; [done |]. intros i Hi.
      by destruct (Z.ltb_spec i 0); [lia |].
    - intros n s Hn [Hs Hval]. unfold NUM_LINES in Hn.
      assert (Hcur : deref s (Z.to_nat n) = deref sc (Z.to_nat n)).
      { rewrite Hval by lia. by rewrite Z.ltb_irrefl. }
      destruct (scores_hit pd0 t ts n) eqn:Hhit.
      + split; [by rewrite length_insert |]. intros i Hi.
        destruct (decide (i = n)) as [-> | Hne].
        * rewrite deref_insert_eq by lia.
          destruct (Z.ltb_spec n (n + 1)); [| lia]. by rewrite Hhit, Hcur.
        * rewrite deref_insert_ne by lia. rewrite Hval by done.
          destruct (Z.ltb_spec i n), (Z.ltb_spec i (n + 1)); (done || lia).
      + split; [done |]. intros i Hi. rewrite Hval by done.
        destruct (decide (i = n)) as [-> | Hne].
        * rewrite Hhit. by rewrite !andb_false_r.
        * destruct (Z.ltb_spec i n), (Z.ltb_spec i (n + 1)); (done || lia). }
  destruct HP as [HPlen HPval]. split; [done |].
  intros i Hi. rewrite HPval by done.
  unfold NUM_LINES. by destruct (Z.ltb_spec i 256); [| lia].
Qed.

(** ** The measurement pass of lines 89-97 *)

Section Measure.
Context {M : Type} {HW : Hardware M}.

Lemma measure_iter_probe (i : Z) (m : M) (ts : list Z) :
  measure_iter i (m, ts)
  = (snd (probe i m), <[Z.to_nat (shuffle i) := fst (probe i m)]> ts).
Proof.
  unfold measure_iter, probe.
  destruct (cpu_time m) as [start m1].
  destruct (cpu_time (force_read (element_at_line (shuffle i)) m1)) as [stop m2].
  reflexivity.
Qed.

(** After the pass, entry [shuffle i] holds the latency of probe [i],
    whatever the array held before. *)
Lemma measure_spec (m : M) (ts : list Z) :
  length ts = 256%nat →
  fst (measure m ts) = after_probes 256 m
  ∧ length (snd (measure m ts)) = 256%nat
  ∧ ∀ i, 0 ≤ i < 256 →
      deref (snd (measure m ts)) (Z.to_nat (shuffle i))
      = fst (probe i (after_probes i m)).
Proof.
  intros Hlen. unfold measure.
  pose (P := λ (n : Z) (st : M * list Z),
    fst st = after_probes n m
    ∧ length (snd st) = 256%nat
    ∧ ∀ i, 0 ≤ i < n →
        deref (snd st) (Z.to_nat (shuffle i)) = fst (probe i (after_probes i m))).
  assert (HP : P NUM_LINES (for_upto NUM_LINES measure_iter (m, ts))).
  { apply for_upto_ind; [done | |].
    - split; [done |]. split; [done |]. intros i Hi. lia.
    - intros n [m' ts'] Hn (Hm & Hts & Hval). simpl in Hm, Hts, Hval.
      unfold NUM_LINES in Hn. rewrite measure_iter_probe. subst m'.
      split; [| split].
      + simpl. unfold after_probes.
        replace (n + 1) with (Z.of_nat (S (Z.to_nat n))) by lia.
        rewrite for_upto_succ. by rewrite Z2Nat.id by lia.
      + simpl. by rewrite length_insert.
      + intros i Hi. simpl.
        pose proof (shuffle_range n). pose proof (shuffle_range i).
        destruct (decide (i = n)) as [-> | Hne].
        * by rewrite deref_insert_eq by lia.
        * rewrite deref_insert_ne; [apply Hval; lia |].
          intros Heq. apply Hne. symmetry.
          apply shuffle_inj; [lia | lia |]. lia. }
  destruct HP as (HPm & HPlen & HPval). done.
Qed.

(** Every entry is overwritten: the outcome of the pass does not depend
    on what the array held before. *)
Lemma measure_fresh (m : M) (ts1 ts2 : list Z) :
  length ts1 = 256%nat → length ts2 = 256%nat →
  measure m ts1 = measure m ts2.
Proof.
  intros H1 H2.
  destruct (measure_spec m ts1 H1) as (Hm1 & Hl1 & Hv1).
  destruct (measure_spec m ts2 H2) as (Hm2 & Hl2 & Hv2).
  apply injective_projections; [congruence |].
  apply deref_ext; [congruence |].
  intros k Hk.
  assert (Hkz : 0 ≤ Z.of_nat k < 256) by lia.
  rewrite <- (Nat2Z.id k), <- (shuffle_unshuffle (Z.of_nat k)) by done.
  pose proof (unshuffle_range (Z.of_nat k)).
  by rewrite Hv1, Hv2.
Qed.

Lemma measure_length (m : M) (ts : list Z) :
  length ts = 256%nat → length (snd (measure m ts)) = 256%nat.
Proof. intros Hlen. by destruct (measure_spec m ts Hlen) as (_ & ? & _). Qed.

End Measure.

(** ** One round *)

Section Round.
Context {M : Type} {HW : Hardware M}.
Variable private_data : Z → byte.
Variable index : Z.

Local Abbreviation pd0 := (byte_val (private_data 0)).

Local Abbreviation rtimes := (round_times private_data index).

Lemma round_eq (m : M) (v : locals) :
  round private_data index (m, v)
  = (fst (measure (train private_data index (flush_lines m)) (times v)),
     Locals (rtimes m v)
       (score_pass pd0 (t_avg_of (rtimes m v)) (rtimes m v) (scores v))
       (get_top_two
          (score_pass pd0 (t_avg_of (rtimes m v)) (rtimes m v) (scores v)))).
Proof.
  unfold round, round_times.
  by destruct (measure (train private_data index (flush_lines m)) (times v)).
Qed.

Lemma round_machine_eq (m : M) (v : locals) :
  fst (round private_data index (m, v))
  = fst (measure (train private_data index (flush_lines m)) (times v)).
Proof.
  unfold round.
  by destruct (measure (train private_data index (flush_lines m)) (times v)).
Qed.

Lemma round_times_eq (m : M) (v : locals) :
  times (snd (round private_data index (m, v))) = rtimes m v.
Proof. rewrite round_eq. reflexivity. Qed.

Lemma round_scores_eq (m : M) (v : locals) :
  scores (snd (round private_data index (m, v)))
  = score_pass pd0 (t_avg_of (rtimes m v)) (rtimes m v) (scores v).
Proof. rewrite round_eq. reflexivity. Qed.

Lemma round_top_eq (m : M) (v : locals) :
  top (snd (round private_data index (m, v)))
  = get_top_two (scores (snd (round private_data index (m, v)))).
Proof. rewrite round_eq. cbn [snd scores top]. reflexivity. Qed.

(** The score of candidate [i] moves by one exactly when the test of
    line 103 succeeds on the fresh samples, and not at all otherwise. *)
Lemma round_scores (m : M) (v : locals) (r : Z) :
  wf_locals r v → 0 ≤ r < 2 ^ 31 - 1 →
  let v' := snd (round private_data index (m, v)) in
  ∀ i, 0 ≤ i < 256 →
    deref (scores v') (Z.to_nat i)
    = deref (scores v) (Z.to_nat i)
      + (if scores_hit pd0 (t_avg_of (times v')) (times v') i then 1 else 0).
Proof.
  intros (Hts & Hsc & Hrange & Htop) Hr v' i Hi. subst v'.
  rewrite round_times_eq, round_scores_eq.
  destruct (score_pass_spec pd0 (t_avg_of (rtimes m v)) (rtimes m v)
              (scores v) Hsc) as [_ Hval].
  rewrite Hval by done.
  specialize (Hrange (Z.to_nat i) ltac:(lia)).
  destruct (scores_hit _ _ _ i); [| lia].
  apply wrap32_id. lia.
Qed.

Lemma round_wf (m : M) (v : locals) (r : Z) :
  wf_locals r v → 0 ≤ r < 2 ^ 31 - 1 →
  wf_locals (r + 1) (snd (round private_data index (m, v))).
Proof.
  intros Hwf Hr. pose proof (round_scores m v r Hwf Hr) as Hstep.
  destruct Hwf as (Hts & Hsc & Hrange & Htop).
  cbv zeta in Hstep.
  split; [rewrite round_times_eq; by apply measure_length |].
  split; [rewrite round_scores_eq; by apply score_pass_spec |].
  split; [| apply round_top_eq].
  intros i Hi. specialize (Hstep (Z.of_nat i) ltac:(lia)).
  rewrite Nat2Z.id in Hstep. rewrite Hstep.
  specialize (Hrange i Hi).
  destruct (scores_hit _ _ _ _); lia.
Qed.

Lemma init_wf : wf_locals 0 init_locals.
Proof.
  split; [reflexivity |]. split; [reflexivity |]. split; [| reflexivity].
  intros i Hi. unfold init_locals, scores. rewrite deref_replicate by done. lia.
Qed.

Lemma after_rounds_S (r : nat) (m : M) :
  after_rounds private_data index (S r) m
  = round private_data index (after_rounds private_data index r m).
Proof. reflexivity. Qed.

Lemma after_rounds_wf (r : nat) (m : M) :
  (r ≤ MAX_RUNS)%nat →
  wf_locals (Z.of_nat r) (snd (after_rounds private_data index r m)).
Proof.
  unfold MAX_RUNS. induction r as [| r IH]; intros Hr.
  - apply init_wf.
  - rewrite after_rounds_S.
    destruct (after_rounds private_data index r m) as [m' v'] eqn:Hst.
    replace (Z.of_nat (S r)) with (Z.of_nat r + 1) by lia.
    apply round_wf; [apply IH; lia | lia].
Qed.

End Round.

(** ** The outer loop of lines 66-114 *)

Lemma first_true_or_none (n : nat) (f : nat → bool) :
  (∀ k, (k < n)%nat → f k = false)
  ∨ (∃ k, (k < n)%nat ∧ f k = true ∧ ∀ k', (k' < k)%nat → f k' = false).
Proof.
  induction n as [| n [Hnone | (k & Hk & Hf & Hfirst)]].
  - left. intros k Hk. lia.
  - destruct (f n) eqn:Hfn.
    + right. exists n. split; [lia |]. done.
    + left. intros k Hk. destruct (decide (k = n)) as [-> | ?]; [done |].
      apply Hnone. lia.
  - right. exists k. split; [lia |]. done.
Qed.

Section Loop.
Context {M : Type} {HW : Hardware M}.
Variable private_data : Z → byte.
Variable index : Z.

Local Abbreviation rnd := (round private_data index).
Local Abbreviation loop := (rounds_from private_data index).

(** No clear winner in any of the [fuel] rounds: the loop runs dry. *)
Lemma rounds_from_never (fuel : nat) (run : Z) (st : M * locals) :
  (∀ k, (k < fuel)%nat → clear_winner (snd (Nat.iter (S k) rnd st)) = false) →
  loop fuel run st
  = (Outcome (return_index (snd (Nat.iter fuel rnd st))) unlikely_tag
       (run + Z.of_nat fuel),
     fst (Nat.iter fuel rnd st)).
Proof.
  revert run st. induction fuel as [| fuel IH]; intros run st Hnever.
  - cbn [rounds_from Nat.iter nat_rect]. by rewrite Z.add_0_r.
  - cbn [rounds_from].
    pose proof (Hnever 0%nat ltac:(lia)) as H0. cbn [Nat.iter nat_rect] in H0.
    rewrite H0, IH.
    + rewrite <- Nat.iter_succ_r. do 2 f_equal. lia.
    + intros k Hk. rewrite <- Nat.iter_succ_r. apply Hnever. lia.
Qed.

(** Round [k + 1] is the first with a clear winner: the loop returns
    there. *)
Lemma rounds_from_first (fuel : nat) (run : Z) (st : M * locals) (k : nat) :
  (k < fuel)%nat →
  (∀ k', (k' < k)%nat → clear_winner (snd (Nat.iter (S k') rnd st)) = false) →
  clear_winner (snd (Nat.iter (S k) rnd st)) = true →
  loop fuel run st
  = (Outcome (return_index (snd (Nat.iter (S k) rnd st))) EmptyString
       (run + Z.of_nat (S k)),
     fst (Nat.iter (S k) rnd st)).
Proof.
  revert run st k. induction fuel as [| fuel IH]; intros run st k Hk Hbefore Hat.
  - lia.
  - cbn [rounds_from]. destruct k as [| k].
    + cbn [Nat.iter nat_rect] in Hat. rewrite Hat. cbn [Nat.iter nat_rect]. do 2 f_equal.
    + pose proof (Hbefore 0%nat ltac:(lia)) as H0. cbn [Nat.iter nat_rect] in H0.
      rewrite H0, (IH (run + 1) (rnd st) k).
      * rewrite <- Nat.iter_succ_r. do 2 f_equal. lia.
      * lia.
      * intros k' Hk'. rewrite <- Nat.iter_succ_r. apply Hbefore. lia.
      * by rewrite <- Nat.iter_succ_r.
Qed.

End Loop.

(** ** The test of line 109 *)

Section Exit.
Variable v : locals.
Variable r : Z.
Hypothesis Hwf : wf_locals r v.
Hypothesis Hr : 0 ≤ r ≤ 1000.

Lemma wf_score_range (i : nat) : 0 ≤ deref (scores v) i ≤ r.
Proof.
  destruct Hwf as (_ & Hlen & Hrange & _).
  destruct (decide (i < 256)%nat) as [Hi | Hi]; [by apply Hrange |].
  unfold deref. rewrite nth_overflow by lia. lia.
Qed.

(** Within the round budget the [int] arithmetic of the test is exact. *)
Lemma clear_winner_exact :
  clear_winner v
  = (deref (scores v) (fst (top v)) >? deref (scores v) (snd (top v)) * 2 + 200).
Proof.
  unfold clear_winner.
  pose proof (wf_score_range (snd (top v))).
  rewrite (wrap32_id (deref (scores v) (snd (top v)) * 2)) by lia.
  by rewrite wrap32_id by lia.
Qed.

Lemma top_is_first_max : is_first_max (scores v) (fst (top v)).
Proof.
  destruct Hwf as (_ & Hlen & _ & ->). apply get_top_two_best.
  intros Hnil. by rewrite Hnil in Hlen.
Qed.

(** A gap at [j] makes [j] the one maximum, hence the tracked best. *)
Lemma gap_is_top (j : nat) : score_gap_at (scores v) j → fst (top v) = j.
Proof.
  intros [Hj Hgap].
  destruct top_is_first_max as (Hb & Hmax & _).
  destruct (decide (fst (top v) = j)) as [| Hne]; [done |].
  specialize (Hgap (fst (top v)) Hb Hne). specialize (Hmax j Hj).
  pose proof (wf_score_range (fst (top v))). lia.
Qed.

(** The test only fires on a genuine gap. *)
Lemma clear_winner_gap :
  clear_winner v = true → score_gap_at (scores v) (fst (top v)).
Proof.
  rewrite clear_winner_exact. intros Hcw%Z.gtb_lt.
  destruct top_is_first_max as (Hb & Hmax & Hfirst).
  split; [done |]. intros i Hi Hne.
  destruct Hwf as (_ & Hlen & _ & Htop).
  destruct (decide (fst (top v) = 0%nat)) as [H0 | H0].
  - rewrite Htop in H0. apply get_top_two_first_is_max in H0.
    rewrite <- Htop in H0. rewrite H0 in Hcw. simpl in Hcw.
    pose proof (wf_score_range 0). lia.
  - pose proof (get_top_two_second (scores v)) as Hsec.
    rewrite <- Htop in Hsec. destruct (Hsec H0) as (_ & _ & Hrest & _).
    specialize (Hrest i Hi Hne). lia.
Qed.

(** A gap anywhere but at the first entry is seen. *)
Lemma clear_winner_complete (j : nat) :
  score_gap_at (scores v) j → j ≠ 0%nat → clear_winner v = true.
Proof.
  intros Hgap Hj0. pose proof (gap_is_top j Hgap) as Hj.
  rewrite clear_winner_exact. apply Z.gtb_lt.
  destruct Hwf as (_ & Hlen & _ & Htop).
  pose proof (get_top_two_second (scores v)) as Hsec.
  rewrite <- Htop, Hj in Hsec. destruct (Hsec Hj0) as (Hk & Hkj & _).
  destruct Hgap as [_ Hgap]. rewrite Hj.
  specialize (Hgap (snd (top v)) ltac:(lia) Hkj). lia.
Qed.

(** When the first entry is a maximum the runner-up is the best itself,
    and the test cannot fire. *)
Lemma clear_winner_missed :
  fst (top v) = 0%nat → clear_winner v = false.
Proof.
  intros H0. rewrite clear_winner_exact.
  destruct Hwf as (_ & _ & _ & Htop).
  rewrite Htop in H0. apply get_top_two_first_is_max in H0.
  rewrite <- Htop in H0. rewrite H0. simpl.
  pose proof (wf_score_range 0).
  destruct (Z.gtb_spec (deref (scores v) 0) (deref (scores v) 0 * 2 + 200)); [lia | done].
Qed.

End Exit.

(** ** Scores across the rounds of one call *)

Section Scores.
Context {M : Type} {HW : Hardware M}.
Variable private_data : Z → byte.
Variable index : Z.
Variable m : M.

Local Abbreviation pd0 := (byte_val (private_data 0)).
Local Abbreviation state r := (after_rounds private_data index r m).

Lemma byte_val_range (b : byte) : 0 ≤ byte_val b < 256.
Proof.
  unfold byte_val. pose proof (Byte.to_N_bounded b). lia.
Qed.

Lemma scores_step (r : nat) (i : Z) :
  (r < MAX_RUNS)%nat → 0 ≤ i < 256 →
  deref (scores (snd (state (S r)))) (Z.to_nat i)
  = deref (scores (snd (state r))) (Z.to_nat i)
    + (if scores_hit pd0 (t_avg_of (times (snd (state (S r)))))
            (times (snd (state (S r)))) i
       then 1 else 0).
Proof.
  intros Hr Hi. unfold MAX_RUNS in Hr.
  pose proof (after_rounds_wf private_data index r m ltac:(unfold MAX_RUNS; lia)) as Hwf.
  rewrite after_rounds_S.
  destruct (after_rounds private_data index r m) as [m' v'].
  apply (round_scores private_data index m' v' (Z.of_nat r)); [done | lia | done].
Qed.

Lemma scores_bounded (r i : nat) :
  (r ≤ MAX_RUNS)%nat → 0 ≤ deref (scores (snd (state r))) i ≤ Z.of_nat r.
Proof.
  intros Hr.
  apply (wf_score_range _ _ (after_rounds_wf private_data index r m Hr)).
  unfold MAX_RUNS in Hr. lia.
Qed.

Lemma excluded_stays_zero (r : nat) :
  (r ≤ MAX_RUNS)%nat →
  deref (scores (snd (state r))) (Z.to_nat pd0) = 0.
Proof.
  induction r as [| r IH]; intros Hr.
  - unfold after_rounds, init_locals. cbn [Nat.iter nat_rect snd scores].
    pose proof (byte_val_range (private_data 0)).
    apply deref_replicate. lia.
  - rewrite scores_step by (pose proof (byte_val_range (private_data 0)); lia).
    rewrite IH by lia. unfold scores_hit.
    by rewrite Z.eqb_refl, andb_false_r.
Qed.

Lemma no_clear_winner_early (r : nat) :
  (r ≤ 200)%nat → clear_winner (snd (state r)) = false.
Proof.
  intros Hr.
  pose proof (after_rounds_wf private_data index r m ltac:(unfold MAX_RUNS; lia)) as Hwf.
  assert (Hrz : 0 ≤ Z.of_nat r ≤ 1000) by lia.
  rewrite (clear_winner_exact _ _ Hwf Hrz).
  pose proof (wf_score_range _ _ Hwf Hrz (fst (top (snd (state r))))).
  pose proof (wf_score_range _ _ Hwf Hrz (snd (top (snd (state r))))).
  destruct (Z.gtb_spec (deref (scores (snd (state r))) (fst (top (snd (state r)))))
              (deref (scores (snd (state r))) (snd (top (snd (state r)))) * 2 + 200));
    [lia | done].
Qed.

(** The call either runs all its rounds and tags the result, or returns
    untagged at the first round whose test fires. *)
Lemma leak_byte_cases :
  ((∀ k, (k < MAX_RUNS)%nat → clear_winner (snd (state (S k))) = false)
   ∧ leak_byte private_data index m
     = (Outcome (return_index (snd (state MAX_RUNS))) unlikely_tag 1000,
        fst (state MAX_RUNS)))
  ∨ (∃ k, (k < MAX_RUNS)%nat
     ∧ clear_winner (snd (state (S k))) = true
     ∧ (∀ k', (k' < k)%nat → clear_winner (snd (state (S k'))) = false)
     ∧ leak_byte private_data index m
       = (Outcome (return_index (snd (state (S k)))) EmptyString (Z.of_nat (S k)),
          fst (state (S k)))).
Proof.
  destruct (first_true_or_none MAX_RUNS (λ k, clear_winner (snd (state (S k)))))
    as [Hnone | (k & Hk & Hat & Hbefore)].
  - left. split; [done |]. unfold leak_byte.
    by rewrite (rounds_from_never private_data index MAX_RUNS 0 (m, init_locals)).
  - right. exists k. split; [done |]. split; [done |]. split; [done |].
    unfold leak_byte.
    by rewrite (rounds_from_first private_data index MAX_RUNS 0 (m, init_locals) k).
Qed.

End Scores.

(** ** What retires: the loops on the tracer *)

Lemma tracer_for_upto (ev : Z → list event) (body : Z → list event → list event)
    (n : nat) (t : list event) :
  (∀ i t', body i t' = t' ++ ev i) →
  for_upto (Z.of_nat n) body t = t ++ concat (map ev (seqZ 0 (Z.of_nat n))).
Proof.
  intros Hbody. induction n as [| n IH].
  - by rewrite for_upto_0, app_nil_r.
  - rewrite for_upto_succ, Hbody, IH, seqZ_S, map_app, concat_app.
    cbn [map concat]. by rewrite app_nil_r, Z.add_0_l, app_assoc.
Qed.

Lemma tracer_train_iter (private_data : Z → byte) (index i : Z) (t : list event) :
  train_iter private_data index i t = t ++ train_events private_data index i.
Proof.
  unfold train_iter, train_events, force_read.
  cbn [hw_clflush hw_load hw_stall hw_squash tracer].
  destruct (select_index index i <? slow_size_value); by rewrite <- !app_assoc.
Qed.

Lemma tracer_train (private_data : Z → byte) (index : Z) (t : list event) :
  train private_data index t
  = t ++ concat (map (train_events private_data index) (seqZ 0 500)).
Proof.
  unfold train. change 500 with (Z.of_nat 500).
  apply tracer_for_upto. intros i t'. apply tracer_train_iter.
Qed.

Lemma tracer_probe (i : Z) (t : list event) :
  snd (probe i t) = t ++ probe_events i.
Proof.
  unfold probe, probe_events, cpu_time, force_read.
  cbn [hw_rdtscp hw_load tracer snd]. by rewrite <- !app_assoc.
Qed.

Lemma measure_machine {M : Type} {HW : Hardware M} (m : M) (ts : list Z) :
  fst (measure m ts) = after_probes 256 m.
Proof.
  unfold measure.
  apply (for_upto_ind (λ n st, fst st = after_probes n m)); [done | done |].
  intros n [m' ts'] Hn Hm. simpl in Hm. subst m'.
  rewrite measure_iter_probe. cbn [fst]. unfold after_probes.
  replace (n + 1) with (Z.of_nat (S (Z.to_nat n))) by lia.
  rewrite for_upto_succ. by rewrite Z2Nat.id by lia.
Qed.

Lemma tracer_measure (t : list event) (ts : list Z) :
  fst (measure t ts) = t ++ concat (map probe_events (seqZ 0 256)).
Proof.
  rewrite measure_machine. unfold after_probes. change 256 with (Z.of_nat 256).
  apply (tracer_for_upto probe_events). intros i t'. apply tracer_probe.
Qed.

Lemma train_stalls (private_data : Z → byte) (index : Z) :
  count_stalls (train (HW := tracer) private_data index []) = 500%nat.
Proof.
  rewrite tracer_train, app_nil_l.
  assert (Hblocks : ∀ l : list Z,
    count_stalls (concat (map (train_events private_data index) l)) = length l).
  { induction l as [| i l IH]; [done |].
    cbn [map concat length]. unfold count_stalls in *.
    rewrite List.filter_app, length_app, IH. f_equal.
    unfold train_events. by destruct (select_index index i <? slow_size_value). }
  by rewrite Hblocks, length_seqZ.
Qed.

Lemma select_index_spec (index i : Z) :
  0 ≤ i →
  select_index index i = if decide ((i + 1) mod 10 = 0) then index else 0.
Proof.
  intros Hi. unfold select_index, nonzero.
  rewrite Z.rem_mod_nonneg by lia.
  destruct (Z.eqb_spec ((i + 1) mod 10) 0); by case_decide.
Qed.

(** ** More on wrap-around: only differences of time stamps matter *)

Lemma wrap64_spec z : wrap64 z = (z + 2 ^ 63) mod 2 ^ 64 - 2 ^ 63.
Proof. rewrite wrap64_eq, wrap_to_spec by lia. done. Qed.

Lemma wrap64_decomp z : ∃ q, wrap64 z = z + 2 ^ 64 * q.
Proof.
  rewrite wrap64_spec.
  exists (- ((z + 2 ^ 63) / 2 ^ 64)).
  pose proof (Z.div_mod (z + 2 ^ 63) (2 ^ 64) ltac:(lia)). lia.
Qed.

Lemma wrap64_congr a b q : a = b + 2 ^ 64 * q → wrap64 a = wrap64 b.
Proof.
  intros ->. rewrite (wrap64_spec b), (wrap64_spec (b + 2 ^ 64 * q)). f_equal.
  replace (b + 2 ^ 64 * q + 2 ^ 63) with (b + 2 ^ 63 + q * 2 ^ 64) by lia.
  apply Z_mod_plus_full.
Qed.

Lemma wrap64_sub_shift x y d :
  wrap64 (wrap64 (x + d) - wrap64 (y + d)) = wrap64 (wrap64 x - wrap64 y).
Proof.
  destruct (wrap64_decomp (x + d)) as [q1 ->].
  destruct (wrap64_decomp (y + d)) as [q2 ->].
  destruct (wrap64_decomp x) as [q3 ->].
  destruct (wrap64_decomp y) as [q4 ->].
  apply (wrap64_congr _ _ (q1 - q2 - q3 + q4)). lia.
Qed.

(** ** The cache machine: a round does not depend on the hour *)

Lemma for_upto_commute {S : Type} (φ : S → S) (body : Z → S → S) (n : Z) (s : S) :
  (∀ i t, body i (φ t) = φ (body i t)) →
  for_upto n body (φ s) = φ (for_upto n body s).
Proof.
  intros Hcomm. unfold for_upto. revert s.
  induction (seqZ 0 n) as [| i l IH]; intros s; [done |].
  cbn [foldl]. by rewrite Hcomm, IH.
Qed.

Section CacheShift.
Variable mem : Z → byte.
Variable index : Z.
Variable d : Z.

Local Abbreviation hw := (cache_hw mem).

Lemma cm_clflush_shift a c : cm_clflush a (cm_shift d c) = cm_shift d (cm_clflush a c).
Proof. destruct a; unfold cm_clflush, cm_shift; cbn [hot now]; f_equal; lia. Qed.

Lemma cm_load_shift a c : cm_load a (cm_shift d c) = cm_shift d (cm_load a c).
Proof. destruct a; unfold cm_load, cm_shift; cbn [hot now]; f_equal; lia. Qed.

Lemma flush_lines_shift c :
  flush_lines (HW := hw) (cm_shift d c) = cm_shift d (flush_lines (HW := hw) c).
Proof.
  unfold flush_lines. apply (for_upto_commute (cm_shift d)).
  intros i t. apply cm_clflush_shift.
Qed.

Lemma train_shift c :
  train (HW := hw) mem index (cm_shift d c) = cm_shift d (train (HW := hw) mem index c).
Proof.
  unfold train. apply (for_upto_commute (cm_shift d)).
  intros i t. unfold train_iter, force_read.
  cbn [hw_clflush hw_load hw_stall hw_squash cache_hw].
  rewrite cm_clflush_shift.
  replace (CacheMachine (hot (cm_shift d (cm_clflush SlowSize t)))
             (now (cm_shift d (cm_clflush SlowSize t)) + 1000))
    with (cm_shift d (CacheMachine (hot (cm_clflush SlowSize t))
                        (now (cm_clflush SlowSize t) + 1000)))
    by (unfold cm_shift; cbn [hot now]; f_equal; lia).
  rewrite cm_load_shift.
  destruct (select_index index i <? slow_size_value).
  - by rewrite !cm_load_shift.
  - unfold cm_shift; cbn [hot now]; f_equal; lia.
Qed.

Lemma measure_iter_shift i c ts :
  measure_iter (HW := hw) i (cm_shift d c, ts)
  = (cm_shift d (fst (measure_iter (HW := hw) i (c, ts))),
     snd (measure_iter (HW := hw) i (c, ts))).
Proof.
  unfold measure_iter, cpu_time, force_read.
  cbn [hw_rdtscp hw_load cache_hw fst snd].
  unfold cm_load, element_at_line, cm_shift. cbn [hot now].
  f_equal.
  - f_equal. lia.
  - f_equal.
    replace (now c + d + 30 + (if Z.testbit (hot c) (line_of (shuffle i * CACHE_LINE_SIZE))
                               then hit_cycles else miss_cycles))
      with (now c + 30 + (if Z.testbit (hot c) (line_of (shuffle i * CACHE_LINE_SIZE))
                          then hit_cycles else miss_cycles) + d) by lia.
    apply wrap64_sub_shift.
Qed.

Lemma measure_shift c ts :
  measure (HW := hw) (cm_shift d c) ts
  = (cm_shift d (fst (measure (HW := hw) c ts)), snd (measure (HW := hw) c ts)).
Proof.
  unfold measure.
  rewrite <- (for_upto_commute (λ st, (cm_shift d (fst st), snd st))
                (measure_iter (HW := hw)) NUM_LINES (c, ts)); [done |].
  intros i [c' ts']. cbn [fst snd]. apply measure_iter_shift.
Qed.

End CacheShift.

(** ** Runs whose rounds all see the same samples *)

Lemma check_all (P : Z → bool) :
  forallb P (seqZ 0 256) = true → ∀ i, 0 ≤ i < 256 → P i = true.
Proof.
  intros Hall i Hi. rewrite forallb_forall in Hall. apply Hall.
  apply list_elem_of_In, elem_of_seqZ. lia.
Qed.

Section FixedTimes.
Context {M : Type} {HW : Hardware M}.
Variable private_data : Z → byte.
Variable index : Z.
Variable m : M.
Variable ts0 : list Z.

Local Abbreviation pd0 := (byte_val (private_data 0)).
Local Abbreviation state r := (after_rounds private_data index r m).
Local Abbreviation hit i := (scores_hit pd0 (t_avg_of ts0) ts0 i).

Hypothesis Hts : ∀ r, (r < MAX_RUNS)%nat → times (snd (state (S r))) = ts0.

Lemma fixed_scores (r : nat) (i : Z) :
  (r ≤ MAX_RUNS)%nat → 0 ≤ i < 256 →
  deref (scores (snd (state r))) (Z.to_nat i) = if hit i then Z.of_nat r else 0.
Proof.
  intros Hr Hi. induction r as [| r IH].
  - unfold after_rounds, init_locals. cbn [Nat.iter nat_rect snd scores].
    rewrite deref_replicate by lia. by destruct (hit i).
  - rewrite scores_step by (done || lia). rewrite Hts, IH by lia.
    destruct (hit i); lia.
Qed.

(** Exactly one candidate, other than the first, is fast in every round:
    it wins at round 201. *)
Lemma single_hit_wins (j : Z) :
  0 < j < 256 →
  (∀ i, 0 ≤ i < 256 → hit i = (i =? j)) →
  leak_byte private_data index m
  = (Outcome (wrap8 j) EmptyString 201, fst (state 201)).
Proof.
  intros Hj Hhit.
  pose proof (after_rounds_wf private_data index 201 m ltac:(unfold MAX_RUNS; lia)) as Hwf.
  assert (Hgap : score_gap_at (scores (snd (state 201))) (Z.to_nat j)).
  { destruct Hwf as (_ & Hlen & _). split; [lia |].
    intros i Hi Hne.
    rewrite fixed_scores, Hhit, Z.eqb_refl by (unfold MAX_RUNS; lia).
    rewrite <- (Nat2Z.id i).
    rewrite fixed_scores, Hhit by (unfold MAX_RUNS; lia).
    destruct (Z.eqb_spec (Z.of_nat i) j); lia. }
  assert (Hcw : clear_winner (snd (state 201)) = true).
  { apply (clear_winner_complete _ 201 Hwf ltac:(lia) (Z.to_nat j)); [done | lia]. }
  destruct (leak_byte_cases private_data index m)
    as [[Hnone _] | (k & Hk & Hat & Hbefore & ->)].
  - rewrite (Hnone 200%nat) in Hcw by (unfold MAX_RUNS; lia). done.
  - assert (k = 200%nat) as ->.
    { destruct (decide (k < 200)%nat) as [Hlt | Hge].
      - rewrite no_clear_winner_early in Hat by lia. done.
      - destruct (decide (k = 200%nat)) as [| Hne]; [done |].
        rewrite (Hbefore 200%nat) in Hcw by lia. done. }
    do 2 f_equal. unfold return_index.
    rewrite (gap_is_top _ 201 Hwf ltac:(lia) (Z.to_nat j) Hgap).
    f_equal. lia.
Qed.

(** No candidate other than the first is ever fast: the first entry stays
    a maximum, the test never fires, and the call runs all its rounds. *)
Lemma first_entry_on_top (r : nat) :
  (∀ i, 0 < i < 256 → hit i = false) →
  (r ≤ MAX_RUNS)%nat → fst (top (snd (state r))) = 0%nat.
Proof.
  intros Hhit Hr.
  pose proof (after_rounds_wf private_data index r m Hr) as Hwf.
  unfold MAX_RUNS in Hr.
  destruct (top_is_first_max _ _ Hwf) as (Hb & _ & Hfirst).
  destruct Hwf as (_ & Hlen & _).
  destruct (decide (fst (top (snd (state r))) = 0%nat)) as [| Hne]; [done |].
  specialize (Hfirst 0%nat ltac:(lia)).
  pose proof (scores_bounded private_data index m r 0 ltac:(unfold MAX_RUNS; lia)).
  rewrite <- (Nat2Z.id (fst (top (snd (state r))))) in Hfirst.
  rewrite (fixed_scores r (Z.of_nat (fst (top (snd (state r))))))
    in Hfirst by (unfold MAX_RUNS; lia).
  rewrite Hhit in Hfirst by lia. lia.
Qed.

Lemma first_entry_never_clear (k : nat) :
  (∀ i, 0 < i < 256 → hit i = false) →
  (k < MAX_RUNS)%nat → clear_winner (snd (state (S k))) = false.
Proof.
  intros Hhit Hk.
  pose proof (after_rounds_wf private_data index (S k) m ltac:(lia)) as Hwf.
  unfold MAX_RUNS in Hk.
  apply (clear_winner_missed _ (Z.of_nat (S k)) Hwf ltac:(lia)).
  apply first_entry_on_top; [done | unfold MAX_RUNS; lia].
Qed.

Lemma first_entry_runs_dry :
  (∀ i, 0 < i < 256 → hit i = false) →
  leak_byte private_data index m
  = (Outcome 0 unlikely_tag 1000, fst (state MAX_RUNS)).
Proof.
  intros Hhit.
  pose proof (λ k, first_entry_never_clear k Hhit) as Hnever.
  destruct (leak_byte_cases private_data index m)
    as [[_ ->] | (k & Hk & Hat & _)].
  - unfold return_index. by rewrite first_entry_on_top.
  - rewrite Hnever in Hat by done. done.
Qed.

End FixedTimes.

(** ** Runs on the cache machine *)

Section CacheRun.
Variable mem : Z → byte.
Variable index : Z.
Variable period : Z.
Variable ts0 : list Z.

Local Abbreviation hw := (cache_hw mem).
Local Abbreviation state r := (after_rounds (HW := hw) mem index r cold).

(** One flush-train-measure pass from the cold machine, evaluated. *)
Hypothesis Hpass :
  measure (HW := hw) (train (HW := hw) mem index (flush_lines (HW := hw) cold))
    (replicate 256 0)
  = (CacheMachine all_hot period, ts0).

Lemma flush_lines_any (h n : Z) :
  h = 0 ∨ h = all_hot →
  flush_lines (HW := hw) (CacheMachine h n) = cm_shift n (flush_lines (HW := hw) cold).
Proof.
  intros Hh. change (CacheMachine h n) with (cm_shift n (CacheMachine h 0)).
  rewrite flush_lines_shift. f_equal.
  destruct Hh as [-> | ->]; [done |]. by vm_compute.
Qed.

Lemma cache_round (h n : Z) (v : locals) :
  h = 0 ∨ h = all_hot →
  length (times v) = 256%nat →
  fst (round (HW := hw) mem index (CacheMachine h n, v)) = CacheMachine all_hot (period + n)
  ∧ times (snd (round (HW := hw) mem index (CacheMachine h n, v))) = ts0.
Proof.
  intros Hh Hlen. rewrite round_machine_eq, round_times_eq. unfold round_times.
  rewrite flush_lines_any, train_shift, measure_shift by done.
  rewrite (measure_fresh _ (times v) (replicate 256 0)) by done.
  rewrite Hpass. cbn [fst snd]. unfold cm_shift. cbn [hot now].
  split; reflexivity.
Qed.

Lemma cache_state (r : nat) :
  (r ≤ MAX_RUNS)%nat →
  ∃ h n, fst (state r) = CacheMachine h n ∧ (h = 0 ∨ h = all_hot).
Proof.
  induction r as [| r IH]; intros Hr.
  - exists 0, 0. split; [done | by left].
  - destruct (IH ltac:(lia)) as (h & n & Hm & Hh).
    pose proof (after_rounds_wf (HW := hw) mem index r cold ltac:(lia)) as (Hlen & _).
    rewrite after_rounds_S.
    destruct (after_rounds (HW := hw) mem index r cold) as [c v].
    cbn [fst snd] in Hm, Hlen. subst c.
    destruct (cache_round h n v Hh Hlen) as [Hm _].
    exists all_hot, (period + n). split; [done | by right].
Qed.

Lemma cache_times (r : nat) :
  (r < MAX_RUNS)%nat → times (snd (state (S r))) = ts0.
Proof.
  intros Hr.
  destruct (cache_state r ltac:(lia)) as (h & n & Hm & Hh).
  pose proof (after_rounds_wf (HW := hw) mem index r cold ltac:(lia)) as (Hlen & _).
  rewrite after_rounds_S.
  destruct (after_rounds (HW := hw) mem index r cold) as [c v].
  cbn [fst snd] in *. subst c.
  by destruct (cache_round h n v Hh Hlen) as [_ ?].
Qed.

End CacheRun.

(** *** Three runs *)

Lemma pass_H :
  measure (HW := cache_hw mem_H)
    (train (HW := cache_hw mem_H) mem_H first_target
       (flush_lines (HW := cache_hw mem_H) cold))
    (replicate 256 0)
  = (CacheMachine all_hot 648706, samples_H).
Proof. by vm_compute. Qed.

Lemma pass_same :
  measure (HW := cache_hw mem_same)
    (train (HW := cache_hw mem_same) mem_same first_target
       (flush_lines (HW := cache_hw mem_same) cold))
    (replicate 256 0)
  = (CacheMachine all_hot 648966, samples_same).
Proof. by vm_compute. Qed.

Lemma pass_nul :
  measure (HW := cache_hw mem_nul)
    (train (HW := cache_hw mem_nul) mem_nul first_target
       (flush_lines (HW := cache_hw mem_nul) cold))
    (replicate 256 0)
  = (CacheMachine all_hot 648706, samples_nul).
Proof. by vm_compute. Qed.

Lemma t_avg_H : t_avg_of samples_H = 327.
Proof. by vm_compute. Qed.

Lemma hits_H i :
  0 ≤ i < 256 → scores_hit 0 (t_avg_of samples_H) samples_H i = (i =? 72).
Proof.
  intros Hi. rewrite t_avg_H. apply Bool.eqb_prop.
  apply (check_all (λ i, Bool.eqb (scores_hit 0 327 samples_H i) (i =? 72)));
    [by vm_compute | done].
Qed.

Lemma t_avg_same : t_avg_of samples_same = 328.
Proof. by vm_compute. Qed.

Lemma hits_same i :
  0 ≤ i < 256 → scores_hit 5 (t_avg_of samples_same) samples_same i = false.
Proof.
  intros Hi. rewrite t_avg_same. apply Bool.eqb_prop.
  apply (check_all (λ i, Bool.eqb (scores_hit 5 328 samples_same i) false));
    [by vm_compute | done].
Qed.

Lemma t_avg_nul : t_avg_of samples_nul = 327.
Proof. by vm_compute. Qed.

Lemma hits_nul i :
  0 ≤ i < 256 → scores_hit 5 (t_avg_of samples_nul) samples_nul i = (i =? 0).
Proof.
  intros Hi. rewrite t_avg_nul. apply Bool.eqb_prop.
  apply (check_all (λ i, Bool.eqb (scores_hit 5 327 samples_nul i) (i =? 0)));
    [by vm_compute | done].
Qed.

(** The secret 'H' is recovered at round 201, untagged. *)
Lemma run_H :
  fst (leak_byte (HW := cache_hw mem_H) mem_H first_target cold)
  = Outcome 72 EmptyString 201.
Proof.
  rewrite (single_hit_wins (HW := cache_hw mem_H) mem_H first_target cold samples_H
             (cache_times mem_H first_target _ _ pass_H) 72); [done | lia |].
  apply hits_H.
Qed.

(** A secret equal to the first byte is never scored: 1000 rounds, tagged. *)
Lemma run_same :
  fst (leak_byte (HW := cache_hw mem_same) mem_same first_target cold)
  = Outcome 0 unlikely_tag 1000.
Proof.
  rewrite (first_entry_runs_dry (HW := cache_hw mem_same) mem_same first_target cold
             samples_same (cache_times mem_same first_target _ _ pass_same)); [done |].
  intros i Hi. apply hits_same. lia.
Qed.

(** A zero secret behind a non-zero first byte: candidate 0 scores in
    every round, and the call still runs 1000 rounds and tags the result. *)
Lemma run_nul :
  fst (leak_byte (HW := cache_hw mem_nul) mem_nul first_target cold)
  = Outcome 0 unlikely_tag 1000.
Proof.
  rewrite (first_entry_runs_dry (HW := cache_hw mem_nul) mem_nul first_target cold
             samples_nul (cache_times mem_nul first_target _ _ pass_nul)); [done |].
  intros i Hi. rewrite hits_nul by lia. by destruct (Z.eqb_spec i 0); [lia |].
Qed.

Lemma run_nul_scores (r : nat) (i : Z) :
  (r ≤ MAX_RUNS)%nat → 0 ≤ i < 256 →
  deref (scores (snd (after_rounds (HW := cache_hw mem_nul) mem_nul first_target r cold)))
    (Z.to_nat i)
  = if i =? 0 then Z.of_nat r else 0.
Proof.
  intros Hr Hi.
  rewrite (fixed_scores (HW := cache_hw mem_nul) mem_nul first_target cold samples_nul
             (cache_times mem_nul first_target _ _ pass_nul)) by done.
  change (byte_val (mem_nul 0)) with 5. by rewrite hits_nul.
Qed.

Lemma run_nul_scores_nat (r i : nat) :
  (r ≤ MAX_RUNS)%nat → (i < 256)%nat →
  deref (scores (snd (after_rounds (HW := cache_hw mem_nul) mem_nul first_target r cold))) i
  = if decide (i = 0%nat) then Z.of_nat r else 0.
Proof.
  intros Hr Hi. rewrite <- (Nat2Z.id i) at 1. rewrite run_nul_scores by (done || lia).
  destruct (Z.eqb_spec (Z.of_nat i) 0); case_decide; (done || lia).
Qed.

Lemma run_same_never_clear (k : nat) :
  (k < MAX_RUNS)%nat →
  clear_winner
    (snd (after_rounds (HW := cache_hw mem_same) mem_same first_target (S k) cold))
  = false.
Proof.
  apply (first_entry_never_clear (HW := cache_hw mem_same) mem_same first_target cold
           samples_same (cache_times mem_same first_target _ _ pass_same)).
  intros i Hi. apply hits_same. lia.
Qed.

Lemma deref_small (ts : list Z) (i : nat) :
  Forall (λ t, 0 ≤ t < 2 ^ 23) ts → 0 ≤ deref ts i < 2 ^ 23.
Proof.
  intros Hts. unfold deref. rewrite nth_lookup.
  destruct (ts !! i) as [t |] eqn:Hl; simpl; [| lia].
  by apply (Forall_lookup_1 _ _ _ _ Hts Hl).
Qed.

(** * The claims *)

(** ** C1: the scoring rule *)

(** C1, as stated, fails: with [private_data[0] = 5] and a zero secret,
    candidate index 0 is fast and gains a point in the very first round. *)
Lemma candidate_zero_scores :
  byte_val (mem_nul 0) = 5
  ∧ times (snd (after_rounds (HW := cache_hw mem_nul) mem_nul first_target 1 cold))
    = samples_nul
  ∧ deref samples_nul 0 = 70
  ∧ t_avg_of samples_nul = 327
  ∧ deref (scores (snd (after_rounds (HW := cache_hw mem_nul) mem_nul first_target 0 cold))) 0 = 0
  ∧ deref (scores (snd (after_rounds (HW := cache_hw mem_nul) mem_nul first_target 1 cold))) 0 = 1.
Proof.
  split; [done |].
  split; [apply (cache_times mem_nul first_target _ _ pass_nul); unfold MAX_RUNS; lia |].
  split; [done |]. split; [apply t_avg_nul |]. split.
  - by rewrite run_nul_scores_nat by (unfold MAX_RUNS; lia).
  - by rewrite run_nul_scores_nat by (unfold MAX_RUNS; lia).
Qed.

(** C1 (amended): in every round, once the 256 samples are taken, the
    score of candidate [i] goes up by exactly 1 when the test of line 103
    holds, [times[i] * 2 < t_avg] and [i != private_data[0]], and stays as
    it is otherwise; for samples below 2^23 cycles the first half of the
    test says that twice the latency is below the exact mean quotient.
    The candidate left out is the byte stored at the known-accessible
    index 0, [private_data[0]]: its score is 0 after every round. *)
Theorem score_rule {M : Type} {HW : Hardware M}
    (private_data : Z → byte) (index : Z) (m : M) (r : nat) (i : Z) :
  (r < MAX_RUNS)%nat → 0 ≤ i < 256 →
  let before := snd (after_rounds private_data index r m) in
  let after := snd (after_rounds private_data index (S r) m) in
  let pd0 := byte_val (private_data 0) in
  deref (scores after) (Z.to_nat i)
  = deref (scores before) (Z.to_nat i)
    + (if (wrap64 (deref (times after) (Z.to_nat i) * 2) <? t_avg_of (times after))
          && negb (i =? pd0)
       then 1 else 0)
  ∧ (Forall (λ t, 0 ≤ t < 2 ^ 23) (times after) →
     (wrap64 (deref (times after) (Z.to_nat i) * 2) <? t_avg_of (times after))
     = (2 * deref (times after) (Z.to_nat i) <? sum_of (times after) / 256))
  ∧ deref (scores after) (Z.to_nat pd0) = 0.
Proof.
  intros Hr Hi before after pd0. subst before after pd0.
  split; [| split].
  - pose proof (scores_step private_data index m r i Hr Hi) as Hstep.
    unfold scores_hit in Hstep. exact Hstep.
  - intros Hsmall.
    pose proof (after_rounds_wf private_data index (S r) m ltac:(lia)) as (Hlen & _).
    rewrite t_avg_exact_small by done.
    pose proof (deref_small _ (Z.to_nat i) Hsmall).
    rewrite wrap64_id by lia. f_equal. lia.
  - apply excluded_stays_zero. lia.
Qed.

Lemma score_rule_witness :
  (0 < MAX_RUNS)%nat ∧ 0 ≤ 72 < 256
  ∧ deref (scores (snd (after_rounds (HW := cache_hw mem_H) mem_H first_target 1 cold)))
      (Z.to_nat (byte_val (mem_H 0))) = 0.
Proof.
  assert (H0 : (0 < MAX_RUNS)%nat) by (unfold MAX_RUNS; lia).
  assert (H72 : 0 ≤ 72 < 256) by lia.
  split; [exact H0 |]. split; [exact H72 |].
  exact (proj2 (proj2 (score_rule (HW := cache_hw mem_H) mem_H first_target cold 0 72 H0 H72))).
Defined.

(** ** C2: the tracked pair *)

(** C2 fails on the code when the first entry is a maximum: both
    iterators stay on it, although the earliest maximum of the remaining
    entries is entry 1.  The same happens on [5; 3; 1]. *)
Theorem get_top_two_first_entry_leads :
  get_top_two scores_first_leads = (0%nat, 0%nat)
  ∧ is_first_max scores_first_leads 0
  ∧ is_first_max_except scores_first_leads 0 1
  ∧ ¬ is_first_max_except scores_first_leads 0 0
  ∧ get_top_two [5; 3; 1] = (0%nat, 0%nat).
Proof.
  assert (Hrest : ∀ i, (0 < i < 256)%nat → deref scores_first_leads i = 0).
  { intros i Hi. unfold scores_first_leads.
    rewrite deref_insert_ne by lia. apply deref_replicate. lia. }
  assert (Hlen : length scores_first_leads = 256%nat) by done.
  split; [by vm_compute |]. split; [| split; [| split]].
  - split; [rewrite Hlen; lia |]. split; [| intros i Hi; lia].
    intros i Hi. rewrite Hlen in Hi.
    destruct (decide (i = 0%nat)) as [-> | ?]; [done |].
    rewrite Hrest by lia. done.
  - split; [rewrite Hlen; lia |]. split; [done |]. split.
    + intros i Hi Hne. rewrite Hlen in Hi. rewrite !Hrest by lia. done.
    + intros i Hi Hne. lia.
  - intros (_ & Hne & _). done.
  - done.
Qed.

(** ** C8: the mean *)

(** C8 fails on the code once the samples add up to 2^31 or more: the
    accumulator of line 99 is an [int].  One probe interrupted for 2^31
    cycles turns the mean negative. *)
Theorem mean_wraps_at_32_bits :
  t_avg_of samples_preempted = -8388508
  ∧ sum_of samples_preempted / 256 = 8388707
  ∧ Forall (λ t, - 2 ^ 63 ≤ t < 2 ^ 63) samples_preempted.
Proof.
  split; [by vm_compute |]. split; [by vm_compute |].
  unfold samples_preempted. apply Forall_insert; [| lia].
  apply Forall_replicate. lia.
Qed.

(** ** C3: the early exit *)

(** C3 fails on the code when the leading candidate is candidate 0.  With
    [private_data[0] = 5] and a zero secret, the score vector after round
    201 is 201 at index 0 and 0 elsewhere: best > 2 * second + 200 holds,
    yet line 109 compares the best with itself, the call does not return
    at that round, runs all 1000 rounds and tags the result. *)
Theorem early_exit_missed_for_candidate_zero :
  let st := after_rounds (HW := cache_hw mem_nul) mem_nul first_target 201 cold in
  scores (snd st) = <[0%nat := 201]> (replicate 256 0)
  ∧ score_gap_at (scores (snd st)) 0
  ∧ top (snd st) = (0%nat, 0%nat)
  ∧ clear_winner (snd st) = false
  ∧ fst (leak_byte (HW := cache_hw mem_nul) mem_nul first_target cold)
    = Outcome 0 unlikely_tag 1000.
Proof.
  intros st. subst st.
  pose proof (after_rounds_wf (HW := cache_hw mem_nul) mem_nul first_target 201 cold
                ltac:(unfold MAX_RUNS; lia)) as Hwf.
  assert (H201 : 0 ≤ Z.of_nat 201 ≤ 1000) by lia.
  assert (Hgap : score_gap_at
            (scores (snd (after_rounds (HW := cache_hw mem_nul) mem_nul first_target 201 cold))) 0).
  { destruct Hwf as (_ & Hlen & _). split; [lia |].
    intros i Hi Hne. rewrite !run_nul_scores_nat by (unfold MAX_RUNS; lia).
    destruct (decide (i = 0%nat)) as [| _]; [lia |].
    destruct (decide (0%nat = 0%nat)) as [_ |]; lia. }
  pose proof (gap_is_top _ _ Hwf H201 0%nat Hgap) as Htop.
  split.
  { destruct Hwf as (_ & Hlen & _). apply deref_ext; [rewrite Hlen; reflexivity |].
    intros i Hi. rewrite Hlen in Hi.
    rewrite run_nul_scores_nat by (unfold MAX_RUNS; lia).
    destruct (decide (i = 0%nat)) as [-> | Hne]; [done |].
    rewrite deref_insert_ne by lia. by rewrite deref_replicate. }
  split; [exact Hgap |].
  split.
  - destruct Hwf as (_ & _ & _ & Heq). rewrite Heq in Htop |- *.
    by apply get_top_two_first_is_max.
  - split; [by apply (clear_winner_missed _ _ Hwf H201) | apply run_nul].
Qed.

(** ** C4: the round cap *)

(** C4: when the test of line 109 never fires, the call completes exactly
    1000 rounds (it leaves the machine of the 1000th round) and returns
    the earliest best-scoring index (as the bit pattern of the [char])
    with the tag printed; and a result without the tag is only returned
    at a round where the test fired, which implies the score gap on the
    score vector itself. *)
Theorem round_cap_is_tagged {M : Type} {HW : Hardware M}
    (private_data : Z → byte) (index : Z) (m : M) :
  let state r := after_rounds private_data index r m in
  let res := fst (leak_byte private_data index m) in
  ((∀ r, (r < MAX_RUNS)%nat → clear_winner (snd (state (S r))) = false) →
   rounds res = 1000
   ∧ snd (leak_byte private_data index m) = fst (state MAX_RUNS)
   ∧ out res = unlikely_tag
   ∧ out res ≠ EmptyString
   ∧ is_first_max (scores (snd (state MAX_RUNS))) (fst (top (snd (state MAX_RUNS))))
   ∧ ret res mod 256 = Z.of_nat (fst (top (snd (state MAX_RUNS)))))
  ∧ (out res ≠ unlikely_tag →
     ∃ r, (r < MAX_RUNS)%nat
       ∧ rounds res = Z.of_nat (S r)
       ∧ out res = EmptyString
       ∧ clear_winner (snd (state (S r))) = true
       ∧ score_gap (scores (snd (state (S r))))
       ∧ ret res mod 256 = Z.of_nat (fst (top (snd (state (S r)))))).
Proof.
  intros state res. subst state res.
  assert (Hret : ∀ r, (r ≤ MAX_RUNS)%nat →
    return_index (snd (after_rounds private_data index r m)) mod 256
    = Z.of_nat (fst (top (snd (after_rounds private_data index r m))))).
  { intros r Hr. unfold return_index. apply wrap8_byte.
    pose proof (after_rounds_wf private_data index r m Hr) as Hwf.
    unfold MAX_RUNS in Hr.
    destruct (top_is_first_max _ _ Hwf) as (Hb & _).
    destruct Hwf as (_ & Hlen & _). lia. }
  destruct (leak_byte_cases private_data index m)
    as [[Hnone ->] | (k & Hk & Hat & Hbefore & ->)]; cbn [fst ret out rounds].
  - split.
    + intros _. split; [done |]. split; [done |]. split; [done |]. split; [done |]. split.
      * apply (top_is_first_max _ _ (after_rounds_wf private_data index MAX_RUNS m ltac:(lia))).
      * by apply Hret.
    + intros Hne. done.
  - split.
    + intros Hnever. rewrite Hnever in Hat by done. done.
    + intros _. exists k. split; [done |]. split; [done |]. split; [done |].
      split; [done |]. split; [| apply Hret; lia].
      exists (fst (top (snd (after_rounds private_data index (S k) m)))).
      pose proof (after_rounds_wf private_data index (S k) m ltac:(lia)) as Hwf.
      unfold MAX_RUNS in Hk.
      apply (clear_winner_gap _ (Z.of_nat (S k)) Hwf ltac:(lia) Hat).
Qed.

Lemma round_cap_is_tagged_witness :
  (rounds (fst (leak_byte (HW := cache_hw mem_same) mem_same first_target cold)) = 1000
   ∧ out (fst (leak_byte (HW := cache_hw mem_same) mem_same first_target cold)) = unlikely_tag)
  ∧ (∃ r, (r < MAX_RUNS)%nat
       ∧ rounds (fst (leak_byte (HW := cache_hw mem_H) mem_H first_target cold)) = Z.of_nat (S r)).
Proof.
  split.
  - destruct (proj1 (round_cap_is_tagged (HW := cache_hw mem_same) mem_same first_target cold)
                run_same_never_clear) as (Hrounds & _ & Hout & _).
    split; [exact Hrounds | exact Hout].
  - assert (Hne : out (fst (leak_byte (HW := cache_hw mem_H) mem_H first_target cold))
                  ≠ unlikely_tag).
    { rewrite run_H. discriminate. }
    destruct (proj2 (round_cap_is_tagged (HW := cache_hw mem_H) mem_H first_target cold) Hne)
      as (r & Hr & Hrounds & _).
    exists r. split; [exact Hr | exact Hrounds].
Defined.

(** ** C6: scores never decrease *)

(** C6: within one call, the score of every candidate after a round is at
    least what it was before that round. *)
Theorem scores_monotone {M : Type} {HW : Hardware M}
    (private_data : Z → byte) (index : Z) (m : M) (r i : nat) :
  (r < MAX_RUNS)%nat → (i < 256)%nat →
  deref (scores (snd (after_rounds private_data index r m))) i
  ≤ deref (scores (snd (after_rounds private_data index (S r) m))) i.
Proof.
  intros Hr Hi.
  pose proof (scores_step private_data index m r (Z.of_nat i) Hr ltac:(lia)) as Hstep.
  rewrite Nat2Z.id in Hstep. rewrite Hstep.
  destruct (scores_hit _ _ _ _); lia.
Qed.

Lemma scores_monotone_witness :
  (200 < MAX_RUNS)%nat ∧ (72 < 256)%nat
  ∧ deref (scores (snd (after_rounds (HW := cache_hw mem_H) mem_H first_target 200 cold))) 72
    ≤ deref (scores (snd (after_rounds (HW := cache_hw mem_H) mem_H first_target 201 cold))) 72.
Proof.
  assert (Hr : (200 < MAX_RUNS)%nat) by (unfold MAX_RUNS; lia).
  assert (Hi : (72 < 256)%nat) by lia.
  split; [exact Hr |]. split; [exact Hi |].
  exact (scores_monotone (HW := cache_hw mem_H) mem_H first_target cold 200 72 Hr Hi).
Defined.

(** ** C10: no early exit before round 201 *)

(** C10: a score grows by at most 1 per round, so it is at most [r] after
    [r] rounds; the test of line 109 is false after each of the first 200
    rounds, and every call completes at least 201 rounds. *)
Theorem early_exit_needs_201_rounds {M : Type} {HW : Hardware M}
    (private_data : Z → byte) (index : Z) (m : M) (r i : nat) :
  (r < MAX_RUNS)%nat → (i < 256)%nat →
  let state r := snd (after_rounds private_data index r m) in
  deref (scores (state (S r))) i ≤ deref (scores (state r)) i + 1
  ∧ deref (scores (state r)) i ≤ Z.of_nat r
  ∧ ((r ≤ 200)%nat → clear_winner (state r) = false)
  ∧ 201 ≤ rounds (fst (leak_byte private_data index m)).
Proof.
  intros Hr Hi state. subst state. cbv beta.
  split; [| split; [| split]].
  - pose proof (scores_step private_data index m r (Z.of_nat i) Hr ltac:(lia)) as Hstep.
    rewrite Nat2Z.id in Hstep. rewrite Hstep.
    destruct (scores_hit _ _ _ _); lia.
  - apply scores_bounded. lia.
  - apply no_clear_winner_early.
  - destruct (leak_byte_cases private_data index m)
      as [[_ ->] | (k & Hk & Hat & _ & ->)]; cbn [fst rounds]; [lia |].
    destruct (decide (k < 200)%nat) as [Hlt | Hge]; [| lia].
    rewrite no_clear_winner_early in Hat by lia. done.
Qed.

Lemma early_exit_needs_201_rounds_witness :
  (0 < MAX_RUNS)%nat ∧ (72 < 256)%nat
  ∧ 201 ≤ rounds (fst (leak_byte (HW := cache_hw mem_H) mem_H first_target cold)).
Proof.
  assert (Hr : (0 < MAX_RUNS)%nat) by (unfold MAX_RUNS; lia).
  assert (Hi : (72 < 256)%nat) by lia.
  split; [exact Hr |]. split; [exact Hi |].
  exact (proj2 (proj2 (proj2
    (early_exit_needs_201_rounds (HW := cache_hw mem_H) mem_H first_target cold 0 72 Hr Hi)))).
Defined.

(** ** C5: the visiting order of the measurement pass *)

(** C5: iteration [i] of the measurement pass visits line
    (167 * i + 13) mod 256; the map is a bijection of 0 .. 255 and not
    the identity; the pass of every round, whatever the machine, the
    memory, the target index or the locals, retires its 256 timed loads
    in that one order; every entry of [times] is the target of exactly
    one iteration and afterwards holds that iteration's sample. *)
Theorem measurement_order_is_fixed_permutation :
  (∀ i, 0 ≤ i < 256 → shuffle i = (167 * i + 13) mod 256)
  ∧ visit_order ≡ₚ seqZ 0 256
  ∧ NoDup visit_order
  ∧ visit_order ≠ seqZ 0 256
  ∧ (∀ k, 0 ≤ k < 256 →
       ∃ i, 0 ≤ i < 256 ∧ shuffle i = k
            ∧ ∀ i', 0 ≤ i' < 256 → shuffle i' = k → i' = i)
  ∧ (∀ (private_data : Z → byte) (index : Z) (t : list event) (v : locals),
       fst (round (HW := tracer) private_data index (t, v))
       = train (HW := tracer) private_data index (flush_lines (HW := tracer) t)
         ++ concat (map (λ line, [EvRdtscp; EvLoad (element_at_line line); EvRdtscp])
                        visit_order))
  ∧ (∀ (M : Type) (HW : Hardware M) (m : M) (ts : list Z) (i : Z),
       length ts = 256%nat → 0 ≤ i < 256 →
       deref (snd (measure m ts)) (Z.to_nat (shuffle i))
       = fst (probe i (after_probes i m))).
Proof.
  split; [intros i _; apply shuffle_mod |].
  split; [apply visit_order_perm |].
  split; [rewrite visit_order_perm; apply NoDup_seqZ |].
  split; [by vm_compute |].
  split.
  { intros k Hk. exists (unshuffle k). pose proof (unshuffle_range k).
    split; [done |]. split; [by apply shuffle_unshuffle |].
    intros i' Hi' <-. symmetry. by apply unshuffle_shuffle. }
  split.
  - intros private_data index t v.
    rewrite round_machine_eq, tracer_measure. by f_equal.
  - intros M HW m ts i Hlen Hi.
    by destruct (measure_spec m ts Hlen) as (_ & _ & Hval); apply Hval.
Qed.

Lemma measurement_order_witness :
  shuffle 0 = 13 ∧ shuffle 1 = 180 ∧ shuffle 255 = 102.
Proof.
  pose proof measurement_order_is_fixed_permutation as (Hmod & _).
  rewrite !Hmod by lia. done.
Defined.

(** ** C7: what the training loop retires *)

(** C7, as stated, fails for a negative target index: the comparison of
    line 83 is signed, -1 < 1 holds, and the tenth iteration retires the
    load of [private_data[-1]] and the forced read it selects. *)
Lemma negative_index_passes_check :
  select_index (-1) 9 = -1
  ∧ (select_index (-1) 9 <? slow_size_value) = true
  ∧ train_iter (HW := tracer) mem_H (-1) 9 []
    = [EvFlush SlowSize; EvStall 1000; EvLoad SlowSize;
       EvLoad (PrivateData (-1)); EvLoad (element_at_line 72)].
Proof. by vm_compute. Qed.

(** C7 (amended): with the control value 1, the check of line 83 fails
    for every selected index of at least 1.  Hence for every target index
    greater than 0 the training loop never retires a load of the protected
    byte: an iteration selecting index 0 retires the load of
    [private_data[0]] and the forced read of the line it selects, an
    iteration selecting the target retires the failed branch only. *)
Theorem guarded_read_only_for_index_zero
    (private_data : Z → byte) (index : Z) (t : list event) :
  0 < index →
  (∀ i, 0 < i → (i <? slow_size_value) = false)
  ∧ train (HW := tracer) private_data index t
    = t ++ concat (map (λ i,
             [EvFlush SlowSize; EvStall 1000; EvLoad SlowSize]
             ++ (if decide (select_index index i = 0)
                 then [EvLoad (PrivateData 0);
                       EvLoad (element_at_line (byte_val (private_data 0)))]
                 else [EvNotTaken index]))
           (seqZ 0 500))
  ∧ (∀ a, EvLoad a ∈ train (HW := tracer) private_data index [] →
          a = SlowSize ∨ a = PrivateData 0
          ∨ a = element_at_line (byte_val (private_data 0))).
Proof.
  intros Hidx.
  assert (Hfail : ∀ i, 0 < i → (i <? slow_size_value) = false).
  { intros i Hi. unfold slow_size_value. by destruct (Z.ltb_spec i 1); [lia |]. }
  assert (Hev : ∀ i, 0 ≤ i < 500 →
    train_events private_data index i
    = [EvFlush SlowSize; EvStall 1000; EvLoad SlowSize]
      ++ (if decide (select_index index i = 0)
          then [EvLoad (PrivateData 0);
                EvLoad (element_at_line (byte_val (private_data 0)))]
          else [EvNotTaken index])).
  { intros i Hi. unfold train_events. f_equal.
    rewrite select_index_spec by lia.
    destruct (decide ((i + 1) mod 10 = 0)).
    - rewrite Hfail by done. by rewrite decide_False by lia.
    - by rewrite decide_True by done. }
  assert (Htrain : ∀ t', train (HW := tracer) private_data index t'
    = t' ++ concat (map (λ i,
             [EvFlush SlowSize; EvStall 1000; EvLoad SlowSize]
             ++ (if decide (select_index index i = 0)
                 then [EvLoad (PrivateData 0);
                       EvLoad (element_at_line (byte_val (private_data 0)))]
                 else [EvNotTaken index]))
           (seqZ 0 500))).
  { intros t'. rewrite tracer_train.
    apply (f_equal (app t')), (f_equal (@concat event)).
    apply map_ext_in. intros i Hi%list_elem_of_In%elem_of_seqZ. apply Hev. lia. }
  split; [exact Hfail |]. split; [apply Htrain |].
  intros a Ha. rewrite Htrain, app_nil_l in Ha.
  apply list_elem_of_In, in_concat in Ha. destruct Ha as (evs & Hevs & Ha).
  apply in_map_iff in Hevs. destruct Hevs as (i & <- & _).
  apply in_app_or in Ha. destruct Ha as [Ha | Ha].
  - left. simpl in Ha. destruct Ha as [Ha | [Ha | [Ha | []]]]; congruence.
  - right. destruct (decide (select_index index i = 0)); simpl in Ha.
    + destruct Ha as [Ha | [Ha | []]]; [left | right]; congruence.
    + destruct Ha as [Ha | []]. congruence.
Qed.

Lemma guarded_read_only_for_index_zero_witness :
  0 < first_target
  ∧ ∀ a, EvLoad a ∈ train (HW := tracer) mem_H first_target [] →
         a = SlowSize ∨ a = PrivateData 0 ∨ a = element_at_line (byte_val (mem_H 0)).
Proof.
  assert (Hpos : 0 < first_target) by (unfold first_target; lia).
  split; [exact Hpos |].
  exact (proj2 (proj2 (guarded_read_only_for_index_zero mem_H first_target [] Hpos))).
Defined.

(** ** C9: the training schedule *)

(** C9: the training loop runs exactly 500 iterations, one block of
    retired events and one busy-wait each; the selected index is the target on the
    iterations whose 1-based position is a multiple of 10, which are 50 of
    the 500, and the known-accessible index 0 on all others. *)
Theorem training_schedule :
  (∀ (private_data : Z → byte) (index : Z) (t : list event),
     train (HW := tracer) private_data index t
     = t ++ concat (map (train_events private_data index) (seqZ 0 500)))
  ∧ (∀ (private_data : Z → byte) (index : Z),
       count_stalls (train (HW := tracer) private_data index []) = 500%nat)
  ∧ (∀ index i, 0 ≤ i < 500 →
       ((i + 1) mod 10 = 0 → select_index index i = index)
       ∧ ((i + 1) mod 10 ≠ 0 → select_index index i = 0))
  ∧ length target_iterations = 50%nat
  ∧ (∀ private_data index i,
       nth 3 (train_events private_data index i) EvRdtscp
       = if select_index index i <? slow_size_value
         then EvLoad (PrivateData (select_index index i))
         else EvNotTaken (select_index index i)).
Proof.
  split; [apply tracer_train |].
  split; [apply train_stalls |].
  split.
  { intros index i Hi. rewrite select_index_spec by lia.
    split; intros Hmod; [by rewrite decide_True | by rewrite decide_False]. }
  split; [by vm_compute |].
  intros private_data index i. unfold train_events.
  by destruct (select_index index i <? slow_size_value).
Qed.

Lemma training_schedule_witness :
  select_index first_target 9 = first_target ∧ select_index first_target 10 = 0.
Proof.
  pose proof training_schedule as (_ & _ & Hsel & _).
  split.
  - apply (Hsel first_target 9); [lia | done].
  - apply (Hsel first_target 10); [lia | done].
Defined.

(** * Further properties of the code *)

(** ** [get_top_two] on arbitrary ranges (lines 25-36) *)

(** X1: on a non-empty range both returned iterators can be
    dereferenced: they lie inside the range; on the empty range both are
    [begin], which is also [end]. *)
Theorem get_top_two_in_range (l : list Z) :
  (l ≠ [] →
   (fst (get_top_two l) < length l)%nat ∧ (snd (get_top_two l) < length l)%nat)
  ∧ (l = [] → get_top_two l = (0%nat, 0%nat)).
Proof.
  split.
  - intros Hne.
    assert (0 < length l)%nat by (destruct l; [done | simpl; lia]).
    pose proof (get_top_two_inv l) as Hinv.
    destruct (get_top_two l) as [j k]. cbn [fst snd].
    destruct Hinv as (Hj & _ & _ & [[-> ->] | (_ & Hk & _)]); lia.
  - by intros ->.
Qed.

Lemma get_top_two_in_range_witness :
  (fst (get_top_two range_late_max) < 4)%nat ∧ (snd (get_top_two range_late_max) < 4)%nat.
Proof.
  apply (proj1 (get_top_two_in_range range_late_max)). discriminate.
Defined.

(** X2: on every non-empty range the first returned iterator points at
    the largest value, at its earliest occurrence, and no other position
    has that property. *)
Theorem get_top_two_first_is_earliest_maximum (l : list Z) :
  l ≠ [] →
  is_first_max l (fst (get_top_two l))
  ∧ ∀ j, is_first_max l j → j = fst (get_top_two l).
Proof.
  intros Hne. pose proof (get_top_two_best l Hne) as Hbest.
  split; [exact Hbest |].
  intros j (Hj & Hmax & Hfirst). destruct Hbest as (Hb & Hbmax & Hbfirst).
  destruct (Nat.lt_trichotomy j (fst (get_top_two l))) as [Hlt | [Heq | Hgt]]; [| done |].
  - specialize (Hbfirst j Hlt). specialize (Hmax _ Hb). lia.
  - specialize (Hfirst _ Hgt). specialize (Hbmax j Hj). lia.
Qed.

Lemma get_top_two_first_is_earliest_maximum_witness :
  range_late_max ≠ [] ∧ is_first_max range_late_max (fst (get_top_two range_late_max)).
Proof.
  assert (Hne : range_late_max ≠ []) by discriminate.
  split; [exact Hne |].
  exact (proj1 (get_top_two_first_is_earliest_maximum range_late_max Hne)).
Defined.

(** X3: when some element is strictly greater than the first one, the
    two iterators differ and the second points at the earliest largest
    value among the elements other than the best. *)
Theorem get_top_two_runner_up (l : list Z) (i : nat) :
  (i < length l)%nat → deref l 0 < deref l i →
  is_first_max_except l (fst (get_top_two l)) (snd (get_top_two l)).
Proof.
  intros Hi Hgt. apply get_top_two_second.
  assert (Hne : l ≠ []) by (intros ->; simpl in Hi; lia).
  destruct (get_top_two_best l Hne) as (_ & Hmax & _).
  intros H0. specialize (Hmax i Hi). rewrite H0 in Hmax. lia.
Qed.

Lemma get_top_two_runner_up_witness :
  (1 < length range_late_max)%nat ∧ deref range_late_max 0 < deref range_late_max 1
  ∧ is_first_max_except range_late_max
      (fst (get_top_two range_late_max)) (snd (get_top_two range_late_max)).
Proof.
  assert (Hi : (1 < length range_late_max)%nat) by (vm_compute; lia).
  assert (Hgt : deref range_late_max 0 < deref range_late_max 1) by (vm_compute; reflexivity).
  split; [exact Hi |]. split; [exact Hgt |].
  exact (get_top_two_runner_up range_late_max 1 Hi Hgt).
Defined.

(** X4: the two returned iterators coincide exactly when the first
    element is a maximum of the range; they then both point at it. *)
Theorem get_top_two_collapses_iff (l : list Z) :
  l ≠ [] →
  (fst (get_top_two l) = snd (get_top_two l)
   ↔ ∀ i, (i < length l)%nat → deref l i ≤ deref l 0)
  ∧ (fst (get_top_two l) = snd (get_top_two l) → get_top_two l = (0%nat, 0%nat)).
Proof.
  intros Hne.
  destruct (get_top_two_best l Hne) as (Hb & Hmax & Hfirst).
  pose proof (get_top_two_inv l) as Hinv.
  pose proof (get_top_two_first_is_max l) as Hzero.
  destruct (get_top_two l) as [j k]. cbn [fst snd] in *.
  destruct Hinv as (_ & _ & _ & Hk).
  assert (Hjk : j = k → j = 0%nat).
  { intros <-. destruct Hk as [[-> _] | (_ & _ & Hkj & _)]; done. }
  split; [split |].
  - intros Heq%Hjk. subst j. done.
  - intros Hall.
    destruct (decide (j = 0%nat)) as [-> | Hj0].
    + by injection (Hzero eq_refl) as <-.
    + specialize (Hfirst 0%nat ltac:(lia)). specialize (Hall j Hb). lia.
  - intros Heq%Hjk. by apply Hzero.
Qed.

Lemma get_top_two_collapses_iff_witness :
  fst (get_top_two range_first_max) = snd (get_top_two range_first_max)
  ↔ ∀ i, (i < length range_first_max)%nat → deref range_first_max i ≤ deref range_first_max 0.
Proof.
  apply (proj1 (get_top_two_collapses_iff range_first_max ltac:(discriminate))).
Defined.

(** X5: whatever the range, the value under the second iterator is at
    most the value under the first and at least every element other than
    the best: it never under-estimates the true runner-up. *)
Theorem get_top_two_second_bounds_the_rest (l : list Z) (i : nat) :
  (i < length l)%nat → i ≠ fst (get_top_two l) →
  deref l i ≤ deref l (snd (get_top_two l))
  ∧ deref l (snd (get_top_two l)) ≤ deref l (fst (get_top_two l)).
Proof.
  intros Hi Hne.
  pose proof (get_top_two_inv l) as Hinv.
  destruct (get_top_two l) as [j k]. cbn [fst snd] in *.
  destruct Hinv as (Hj & Hmax & _ & [[-> ->] | (_ & Hk & _ & Hrest & _)]).
  - split; [by apply Hmax | lia].
  - split; [by apply Hrest | by apply Hmax].
Qed.

Lemma get_top_two_second_bounds_the_rest_witness :
  (3 < length range_first_max)%nat ∧ 3%nat ≠ fst (get_top_two range_first_max)
  ∧ deref range_first_max 3 ≤ deref range_first_max (snd (get_top_two range_first_max)).
Proof.
  assert (Hi : (3 < length range_first_max)%nat) by (vm_compute; lia).
  assert (Hne : 3%nat ≠ fst (get_top_two range_first_max)) by (vm_compute; discriminate).
  split; [exact Hi |]. split; [exact Hne |].
  exact (proj1 (get_top_two_second_bounds_the_rest range_first_max 3 Hi Hne)).
Defined.

(** ** The mean and the scoring test (lines 99-104) *)

Lemma accumulate_range (ts : list Z) : - 2 ^ 31 ≤ accumulate ts < 2 ^ 31.
Proof.
  unfold accumulate.
  assert (Hgen : ∀ a, - 2 ^ 31 ≤ a < 2 ^ 31 →
    - 2 ^ 31 ≤ foldl (λ acc t, wrap32 (wrap64 (acc + t))) a ts < 2 ^ 31).
  { induction ts as [| t ts IH]; intros a Ha; [done |].
    cbn [foldl]. apply IH. apply wrap32_range. }
  apply Hgen. lia.
Qed.

(** X6: whatever the 256 samples are, the mean of line 99 is an [int]
    quotient by 256: it lies between -2^23 and 2^23 - 1. *)
Theorem t_avg_is_a_24_bit_value (ts : list Z) :
  - 2 ^ 23 ≤ t_avg_of ts < 2 ^ 23.
Proof.
  unfold t_avg_of, NUM_LINES. pose proof (accumulate_range ts) as Hacc.
  destruct (Z.le_gt_cases 0 (accumulate ts)) as [Hpos | Hneg].
  - rewrite Z.quot_div_nonneg by lia.
    split; [pose proof (Z.div_pos (accumulate ts) 256); lia |].
    apply Z.div_lt_upper_bound; lia.
  - rewrite <- (Z.opp_involutive (accumulate ts)), Z.quot_opp_l by lia.
    rewrite Z.quot_div_nonneg by lia.
    pose proof (Z.div_pos (- accumulate ts) 256 ltac:(lia) ltac:(lia)).
    assert (- accumulate ts / 256 ≤ 2 ^ 23); [| lia].
    apply Z.div_le_upper_bound; lia.
Qed.

Lemma wrap32_decomp z : ∃ q, wrap32 z = z + 2 ^ 32 * q.
Proof.
  rewrite wrap32_eq, wrap_to_spec by lia. change (2 ^ (32 - 1)) with (2 ^ 31).
  exists (- ((z + 2 ^ 31) / 2 ^ 32)).
  pose proof (Z.div_mod (z + 2 ^ 31) (2 ^ 32) ltac:(lia)). lia.
Qed.

Lemma wrap32_congr a b q : a = b + 2 ^ 32 * q → wrap32 a = wrap32 b.
Proof.
  intros ->. rewrite (wrap32_eq b), (wrap32_eq (b + 2 ^ 32 * q)).
  rewrite !wrap_to_spec by lia. change (2 ^ (32 - 1)) with (2 ^ 31). f_equal.
  replace (b + 2 ^ 32 * q + 2 ^ 31) with (b + 2 ^ 31 + q * 2 ^ 32) by lia.
  apply Z_mod_plus_full.
Qed.

(** X21: for every sample vector, the accumulator of line 99 is the
    exact sum of the samples reduced to a signed 32-bit value, so the
    mean is that reduced sum divided by 256 with truncation towards
    zero; reordering the samples does not change it. *)
Theorem t_avg_is_the_sum_reduced_to_32_bits (ts : list Z) :
  accumulate ts = wrap32 (sum_of ts)
  ∧ t_avg_of ts = Z.quot (wrap32 (sum_of ts)) 256
  ∧ ∀ ts', ts ≡ₚ ts' → t_avg_of ts' = t_avg_of ts.
Proof.
  assert (Hacc : ∀ l a, foldl (λ acc t, wrap32 (wrap64 (acc + t))) (wrap32 a) l
                        = wrap32 (a + sum_of l)).
  { induction l as [| t l IH]; intros a.
    - cbn [foldl sum_of foldr]. by rewrite Z.add_0_r.
    - cbn [foldl]. rewrite wrap32_wrap64.
      destruct (wrap32_decomp a) as [q Hq].
      rewrite (wrap32_congr (wrap32 a + t) (a + t) q) by lia.
      rewrite IH. f_equal. unfold sum_of. cbn [foldr]. lia. }
  assert (Heq : ∀ l, accumulate l = wrap32 (sum_of l)).
  { intros l. unfold accumulate. change 0 with (wrap32 0) at 1. by rewrite Hacc. }
  split; [apply Heq |]. split; [unfold t_avg_of; by rewrite Heq |].
  intros ts' Hperm. unfold t_avg_of. rewrite !Heq. do 2 f_equal.
  unfold sum_of. induction Hperm; cbn [foldr]; lia.
Qed.

(** X7: when every sample lies in [0, 2^23), a range that holds any
    latency below 2.8 ms at 3 GHz, the mean of line 99 is the exact
    integer quotient of the sum of the 256 samples by 256. *)
Theorem t_avg_exact_below_2_23 (ts : list Z) :
  length ts = 256%nat →
  Forall (λ t, 0 ≤ t < 2 ^ 23) ts →
  t_avg_of ts = sum_of ts / 256 ∧ 0 ≤ t_avg_of ts.
Proof.
  intros Hlen Hts. rewrite t_avg_exact_small by done.
  split; [done |]. apply Z.div_pos; [by apply sum_of_nonneg | lia].
Qed.

Lemma samples_H_small : Forall (λ t, 0 ≤ t < 2 ^ 23) samples_H.
Proof.
  unfold samples_H. apply Forall_insert; [| lia]. apply Forall_insert; [| lia].
  apply Forall_replicate. lia.
Qed.

Lemma t_avg_exact_below_2_23_witness :
  length samples_H = 256%nat
  ∧ Forall (λ t, 0 ≤ t < 2 ^ 23) samples_H
  ∧ t_avg_of samples_H = sum_of samples_H / 256.
Proof.
  assert (Hlen : length samples_H = 256%nat) by reflexivity.
  split; [exact Hlen |]. split; [exact samples_H_small |].
  exact (proj1 (t_avg_exact_below_2_23 samples_H Hlen samples_H_small)).
Defined.

(** X8: a candidate whose sample is 2^22 cycles or more (and below 2^62,
    where the doubling of line 103 would wrap) fails the test of line 103
    whatever the other samples are, and the scoring pass leaves its score
    untouched. *)
Theorem slow_candidate_never_scores (pd0 : Z) (ts sc : list Z) (i : Z) :
  length sc = 256%nat → 0 ≤ i < 256 →
  2 ^ 22 ≤ deref ts (Z.to_nat i) < 2 ^ 62 →
  scores_hit pd0 (t_avg_of ts) ts i = false
  ∧ deref (score_pass pd0 (t_avg_of ts) ts sc) (Z.to_nat i) = deref sc (Z.to_nat i).
Proof.
  intros Hlen Hi Hslow.
  assert (Hhit : scores_hit pd0 (t_avg_of ts) ts i = false).
  { unfold scores_hit. rewrite wrap64_id by lia.
    pose proof (t_avg_is_a_24_bit_value ts).
    by destruct (Z.ltb_spec (deref ts (Z.to_nat i) * 2) (t_avg_of ts)); [lia |]. }
  split; [exact Hhit |].
  destruct (score_pass_spec pd0 (t_avg_of ts) ts sc Hlen) as [_ Hval].
  by rewrite Hval, Hhit.
Qed.

Lemma slow_candidate_never_scores_witness :
  length (replicate 256 0) = 256%nat ∧ 0 ≤ 13 < 256
  ∧ 2 ^ 22 ≤ deref samples_preempted (Z.to_nat 13) < 2 ^ 62
  ∧ scores_hit 0 (t_avg_of samples_preempted) samples_preempted 13 = false.
Proof.
  assert (Hlen : length (replicate 256 0) = 256%nat) by reflexivity.
  assert (Hi : 0 ≤ 13 < 256) by lia.
  assert (Hslow : 2 ^ 22 ≤ deref samples_preempted (Z.to_nat 13) < 2 ^ 62)
    by (change (deref samples_preempted (Z.to_nat 13)) with 2147483648; lia).
  split; [exact Hlen |]. split; [exact Hi |]. split; [exact Hslow |].
  exact (proj1 (slow_candidate_never_scores 0 samples_preempted (replicate 256 0) 13
                  Hlen Hi Hslow)).
Defined.

Lemma sum_of_le (ts : list Z) (c : Z) :
  Forall (λ t, t ≤ c) ts → sum_of ts ≤ c * Z.of_nat (length ts).
Proof. induction 1; simpl in *; lia. Qed.

(** X9: with samples in [0, 2^23), a candidate whose sample is the
    largest of the round — the slowest line — never passes the test of
    line 103. *)
Theorem slowest_candidate_never_scores (pd0 : Z) (ts : list Z) (i : Z) :
  length ts = 256%nat →
  Forall (λ t, 0 ≤ t < 2 ^ 23) ts →
  Forall (λ t, t ≤ deref ts (Z.to_nat i)) ts →
  scores_hit pd0 (t_avg_of ts) ts i = false.
Proof.
  intros Hlen Hsmall Hmax. unfold scores_hit.
  rewrite t_avg_exact_small by done.
  pose proof (deref_small ts (Z.to_nat i) Hsmall) as Hi.
  rewrite wrap64_id by lia.
  pose proof (sum_of_le ts _ Hmax) as Hsum. rewrite Hlen in Hsum.
  assert (sum_of ts / 256 ≤ deref ts (Z.to_nat i)).
  { apply Z.div_le_upper_bound; lia. }
  by destruct (Z.ltb_spec (deref ts (Z.to_nat i) * 2) (sum_of ts / 256)); [lia |].
Qed.

Lemma samples_H_max : Forall (λ t, t ≤ deref samples_H (Z.to_nat 1)) samples_H.
Proof.
  change (deref samples_H (Z.to_nat 1)) with 330.
  unfold samples_H. apply Forall_insert; [| lia]. apply Forall_insert; [| lia].
  apply Forall_replicate. lia.
Qed.

Lemma slowest_candidate_never_scores_witness :
  length samples_H = 256%nat
  ∧ scores_hit 0 (t_avg_of samples_H) samples_H 1 = false.
Proof.
  split; [reflexivity |].
  exact (slowest_candidate_never_scores 0 samples_H 1 eq_refl samples_H_small samples_H_max).
Defined.

(** X10: a round in which all 256 samples are equal (and in [0, 2^23))
    carries no information: the scoring pass returns the score vector
    unchanged. *)
Theorem flat_round_scores_nobody (pd0 c : Z) (sc : list Z) :
  length sc = 256%nat → 0 ≤ c < 2 ^ 23 →
  score_pass pd0 (t_avg_of (replicate 256 c)) (replicate 256 c) sc = sc.
Proof.
  intros Hlen Hc.
  destruct (score_pass_spec pd0 (t_avg_of (replicate 256 c)) (replicate 256 c) sc Hlen)
    as [Hl Hval].
  apply deref_ext; [congruence |].
  intros k Hk. rewrite Hl in Hk.
  rewrite <- (Nat2Z.id k), Hval by lia.
  rewrite slowest_candidate_never_scores; [done | by rewrite length_replicate | |].
  - apply Forall_replicate. lia.
  - rewrite Nat2Z.id, deref_replicate by lia. apply Forall_replicate. lia.
Qed.

Lemma flat_round_scores_nobody_witness :
  length (replicate 256 7) = 256%nat ∧ 0 ≤ 330 < 2 ^ 23
  ∧ score_pass 0 (t_avg_of (replicate 256 330)) (replicate 256 330) (replicate 256 7)
    = replicate 256 7.
Proof.
  assert (Hlen : length (replicate 256 7) = 256%nat) by reflexivity.
  assert (Hc : 0 ≤ 330 < 2 ^ 23) by lia.
  split; [exact Hlen |]. split; [exact Hc |].
  exact (flat_round_scores_nobody 0 330 (replicate 256 7) Hlen Hc).
Defined.

(** ** [leak_byte] on any machine (lines 38-115) *)

Lemma for_upto_ext {S : Type} (body1 body2 : Z → S → S) (n : Z) (s : S) :
  (∀ i t, body1 i t = body2 i t) →
  for_upto n body1 s = for_upto n body2 s.
Proof.
  intros Hext. unfold for_upto. revert s.
  induction (seqZ 0 n) as [| i l IH]; intros s; [done |].
  cbn [foldl]. by rewrite Hext, IH.
Qed.

Section ClockOffset.
Context {M : Type} (HW : Hardware M).
Variable d : Z.
Variable private_data : Z → byte.
Variable index : Z.

Local Abbreviation HW' := (offset_clock HW d).

Lemma offset_measure_iter (i : Z) (st : M * list Z) :
  measure_iter (HW := HW') i st = measure_iter (HW := HW) i st.
Proof.
  destruct st as [m ts].
  unfold measure_iter, cpu_time, force_read, offset_clock.
  cbn [hw_rdtscp hw_load].
  destruct (hw_rdtscp m) as [t1 m1].
  destruct (hw_rdtscp (hw_load (element_at_line (shuffle i)) m1)) as [t2 m2].
  by rewrite wrap64_sub_shift.
Qed.

Lemma offset_flush_lines (m : M) :
  flush_lines (HW := HW') m = flush_lines (HW := HW) m.
Proof. unfold flush_lines. by apply for_upto_ext. Qed.

Lemma offset_train (m : M) :
  train (HW := HW') private_data index m = train (HW := HW) private_data index m.
Proof. unfold train. by apply for_upto_ext. Qed.

Lemma offset_measure (m : M) (ts : list Z) :
  measure (HW := HW') m ts = measure (HW := HW) m ts.
Proof. unfold measure. apply for_upto_ext. apply offset_measure_iter. Qed.

Lemma offset_round (st : M * locals) :
  round (HW := HW') private_data index st = round (HW := HW) private_data index st.
Proof.
  destruct st as [m v]. unfold round.
  by rewrite offset_flush_lines, offset_train, offset_measure.
Qed.

End ClockOffset.

(** X11: only differences of time stamps matter.  Running the call on a
    machine whose time-stamp counter is ahead by any constant, even one
    that makes the 64-bit counter wrap, gives the same returned byte, the
    same output, the same number of rounds and the same final machine. *)
Theorem leak_byte_ignores_clock_offset {M : Type} (HW : Hardware M)
    (d : Z) (private_data : Z → byte) (index : Z) (m : M) :
  leak_byte (HW := offset_clock HW d) private_data index m
  = leak_byte (HW := HW) private_data index m.
Proof.
  unfold leak_byte. generalize 0 (m, init_locals).
  induction MAX_RUNS as [| fuel IH]; intros run st; [done |].
  cbn [rounds_from]. by rewrite offset_round, IH.
Qed.

(** X12: a round recomputes all 256 samples.  The machine a round leaves
    and the samples it records are the same whatever samples, scores and
    iterator pair the previous rounds left behind. *)
Theorem round_forgets_previous_locals {M : Type} {HW : Hardware M}
    (private_data : Z → byte) (index : Z) (m : M) (v1 v2 : locals) :
  length (times v1) = 256%nat → length (times v2) = 256%nat →
  fst (round private_data index (m, v1)) = fst (round private_data index (m, v2))
  ∧ times (snd (round private_data index (m, v1)))
    = times (snd (round private_data index (m, v2))).
Proof.
  intros H1 H2. rewrite !round_machine_eq, !round_times_eq. unfold round_times.
  by rewrite (measure_fresh _ (times v1) (times v2)).
Qed.

Lemma round_forgets_previous_locals_witness :
  length (times init_locals) = 256%nat
  ∧ length (times (Locals samples_H scores_first_leads (0%nat, 0%nat))) = 256%nat
  ∧ times (snd (round (HW := cache_hw mem_H) mem_H first_target (cold, init_locals)))
    = times (snd (round (HW := cache_hw mem_H) mem_H first_target
                    (cold, Locals samples_H scores_first_leads (0%nat, 0%nat)))).
Proof.
  assert (H1 : length (times init_locals) = 256%nat) by reflexivity.
  assert (H2 : length (times (Locals samples_H scores_first_leads (0%nat, 0%nat))) = 256%nat)
    by reflexivity.
  split; [exact H1 |]. split; [exact H2 |].
  exact (proj2 (round_forgets_previous_locals (HW := cache_hw mem_H) mem_H first_target cold
                  init_locals (Locals samples_H scores_first_leads (0%nat, 0%nat)) H1 H2)).
Defined.

(** X13: a result returned without the tag is never the byte 0 and never
    the byte stored at [private_data[0]]: neither of these two values can
    be recovered with confidence, whatever the machine does. *)
Theorem untagged_result_is_not_zero_nor_excluded {M : Type} {HW : Hardware M}
    (private_data : Z → byte) (index : Z) (m : M) :
  out (fst (leak_byte private_data index m)) = EmptyString →
  ret (fst (leak_byte private_data index m)) mod 256 ≠ 0
  ∧ ret (fst (leak_byte private_data index m)) mod 256 ≠ byte_val (private_data 0).
Proof.
  destruct (leak_byte_cases private_data index m)
    as [[_ ->] | (k & Hk & Hat & _ & ->)]; cbn [fst out ret]; [discriminate |].
  intros _.
  pose proof (after_rounds_wf private_data index (S k) m ltac:(lia)) as Hwf.
  assert (Hkz : 0 ≤ Z.of_nat (S k) ≤ 1000) by (unfold MAX_RUNS in Hk; lia).
  set (v := snd (after_rounds private_data index (S k) m)) in *.
  destruct (top_is_first_max v _ Hwf) as (Hb & _).
  assert (Hlen : length (scores v) = 256%nat) by (by destruct Hwf as (_ & ? & _)).
  unfold return_index. rewrite wrap8_byte by lia.
  split.
  - intros H0. rewrite (clear_winner_missed v _ Hwf Hkz) in Hat; [done | lia].
  - intros Hpd.
    rewrite (clear_winner_exact v _ Hwf Hkz) in Hat. apply Z.gtb_lt in Hat.
    pose proof (excluded_stays_zero private_data index m (S k) ltac:(lia)) as Hz.
    fold v in Hz. rewrite <- Hpd, Nat2Z.id in Hz.
    pose proof (wf_score_range v _ Hwf Hkz (snd (top v))). lia.
Qed.

Lemma untagged_result_is_not_zero_nor_excluded_witness :
  out (fst (leak_byte (HW := cache_hw mem_H) mem_H first_target cold)) = EmptyString
  ∧ ret (fst (leak_byte (HW := cache_hw mem_H) mem_H first_target cold)) mod 256 ≠ 0.
Proof.
  assert (Hout : out (fst (leak_byte (HW := cache_hw mem_H) mem_H first_target cold))
                 = EmptyString) by (rewrite run_H; reflexivity).
  split; [exact Hout |].
  exact (proj1 (untagged_result_is_not_zero_nor_excluded (HW := cache_hw mem_H)
                  mem_H first_target cold Hout)).
Defined.

(** ** What a call retires, whatever the timing *)

Lemma Forall_concat_map {A B : Type} (P : B → Prop) (f : A → list B) (l : list A) :
  (∀ x, Forall P (f x)) → Forall P (concat (map f l)).
Proof.
  intros Hf. induction l as [| x l IH]; [constructor |].
  cbn [map concat]. apply Forall_app. by split.
Qed.

Lemma Forall_concat_replicate {A : Type} (P : A → Prop) (n : nat) (l : list A) :
  Forall P l → Forall P (concat (replicate n l)).
Proof.
  intros Hl. induction n as [| n IH]; [constructor |].
  cbn [replicate concat]. apply Forall_app. by split.
Qed.

Lemma round_events_in_bounds (private_data : Z → byte) (index : Z) :
  Forall probe_in_bounds (round_events private_data index).
Proof.
  assert (Hline : ∀ k, 0 ≤ k < 256 →
    0 ≤ k * CACHE_LINE_SIZE < TIMING_ARRAY_SIZE
    ∧ (k * CACHE_LINE_SIZE) mod CACHE_LINE_SIZE = 0).
  { intros k Hk. unfold TIMING_ARRAY_SIZE, NUM_LINES, CACHE_LINE_SIZE.
    rewrite Z.mod_mul by lia. lia. }
  unfold round_events. apply Forall_app. split; [| apply Forall_app; split].
  - unfold flush_events, NUM_LINES. apply Forall_concat.
    apply Forall_map, Forall_forall. intros i Hi%list_elem_of_In%elem_of_seqZ.
    constructor; [| constructor]. apply Hline. lia.
  - apply Forall_concat_map. intros i. unfold train_events.
    apply Forall_app. split; [by repeat constructor |].
    destruct (select_index index i <? slow_size_value); [| by repeat constructor].
    constructor; [done |]. constructor; [| constructor].
    apply Hline, byte_val_range.
  - apply Forall_concat_map. intros i. unfold probe_events.
    constructor; [done |]. constructor; [| by repeat constructor].
    apply Hline, shuffle_range.
Qed.


Section ClockedTracer.
Variable clock : list event → Z.
Variable private_data : Z → byte.
Variable index : Z.

Local Abbreviation CT := (clocked_tracer clock).

Lemma ct_flush_lines (t : list event) :
  flush_lines (HW := CT) t = t ++ flush_events.
Proof.
  unfold flush_lines, flush_events, NUM_LINES. change 256 with (Z.of_nat 256).
  by apply tracer_for_upto.
Qed.

Lemma ct_train (t : list event) :
  train (HW := CT) private_data index t
  = t ++ concat (map (train_events private_data index) (seqZ 0 500)).
Proof.
  unfold train. change 500 with (Z.of_nat 500).
  apply tracer_for_upto. intros i t'.
  unfold train_iter, train_events, force_read.
  cbn [hw_clflush hw_load hw_stall hw_squash clocked_tracer].
  destruct (select_index index i <? slow_size_value); by rewrite <- !app_assoc.
Qed.

Lemma ct_measure (t : list event) (ts : list Z) :
  fst (measure (HW := CT) t ts) = t ++ concat (map probe_events (seqZ 0 NUM_LINES)).
Proof.
  rewrite measure_machine. unfold after_probes, NUM_LINES.
  change 256 with (Z.of_nat 256).
  apply (tracer_for_upto probe_events). intros i t'.
  unfold probe, probe_events, cpu_time, force_read.
  cbn [hw_rdtscp hw_load clocked_tracer snd]. by rewrite <- !app_assoc.
Qed.

Lemma ct_round (t : list event) (v : locals) :
  fst (round (HW := CT) private_data index (t, v)) = t ++ round_events private_data index.
Proof.
  rewrite round_machine_eq, ct_measure, ct_train, ct_flush_lines.
  unfold round_events. by rewrite <- !app_assoc.
Qed.

Lemma ct_after_rounds (r : nat) (t : list event) :
  fst (after_rounds (HW := CT) private_data index r t)
  = t ++ concat (replicate r (round_events private_data index)).
Proof.
  induction r as [| r IH].
  - unfold after_rounds. cbn [Nat.iter nat_rect fst replicate concat].
    by rewrite app_nil_r.
  - rewrite after_rounds_S.
    destruct (after_rounds (HW := CT) private_data index r t) as [t' v].
    cbn [fst] in IH. rewrite ct_round, IH, <- app_assoc.
    apply (f_equal (app t)). cbn [replicate concat].
    clear. induction r as [| r IH]; cbn [replicate concat].
    + by rewrite app_nil_r.
    + by rewrite <- app_assoc, IH.
Qed.

Lemma ct_leak_byte (t : list event) :
  ∃ k : nat,
    (201 ≤ k ≤ 1000)%nat
    ∧ rounds (fst (leak_byte (HW := CT) private_data index t)) = Z.of_nat k
    ∧ snd (leak_byte (HW := CT) private_data index t)
      = t ++ concat (replicate k (round_events private_data index)).
Proof.
  destruct (leak_byte_cases (HW := CT) private_data index t)
    as [[_ ->] | (k & Hk & Hat & _ & ->)]; cbn [fst snd rounds].
  - exists 1000%nat. split; [lia |]. split; [done |]. apply ct_after_rounds.
  - exists (S k). unfold MAX_RUNS in Hk. split; [| split; [done | apply ct_after_rounds]].
    destruct (decide (k < 200)%nat) as [Hlt | Hge]; [| lia].
    rewrite no_clear_winner_early in Hat by lia. done.
Qed.

End ClockedTracer.


(** X15: every flush and every load of [timing_array] that a call
    retires hits the first byte of one of its 256 lines: the offset is a
    multiple of 512 inside the 131072 bytes of the array, whatever
    [private_data] holds and whatever the target index is. *)
Theorem call_stays_inside_timing_array (clock : list event → Z)
    (private_data : Z → byte) (index : Z) (t : list event) (e : event) :
  e ∈ snd (leak_byte (HW := clocked_tracer clock) private_data index t) →
  e ∈ t ∨ probe_in_bounds e.
Proof.
  destruct (ct_leak_byte clock private_data index t) as (k & _ & _ & ->).
  intros [Hin | Hin]%elem_of_app; [by left | right].
  pose proof (Forall_concat_replicate _ k _ (round_events_in_bounds private_data index)) as Hall.
  rewrite Forall_forall in Hall. by apply Hall, list_elem_of_In.
Qed.

Lemma call_stays_inside_timing_array_witness :
  EvLoad (element_at_line 13) ∈ snd (leak_byte (HW := tracer) mem_H first_target [])
  ∧ probe_in_bounds (EvLoad (element_at_line 13)).
Proof.
  assert (Hin : EvLoad (element_at_line 13)
                ∈ snd (leak_byte (HW := clocked_tracer (λ t, Z.of_nat (length t)))
                         mem_H first_target [])).
  { destruct (ct_leak_byte (λ t, Z.of_nat (length t)) mem_H first_target [])
      as (k & Hk & _ & ->).
    destruct k as [| k]; [lia |]. cbn [replicate concat app].
    apply elem_of_app. left. unfold round_events.
    apply elem_of_app. right. apply elem_of_app. right.
    apply list_elem_of_In, in_concat. exists (probe_events 0).
    split; [apply in_map, list_elem_of_In, elem_of_seqZ; unfold NUM_LINES; lia |].
    right. by left. }
  split; [exact Hin |].
  destruct (call_stays_inside_timing_array _ _ _ _ _ Hin) as [Hnil | Hb]; [| exact Hb].
  by apply not_elem_of_nil in Hnil.
Defined.



(** ** [leak_byte] on the cache machine, for every memory *)

Lemma sum_of_insert (l : list Z) (i : nat) (x : Z) :
  (i < length l)%nat → sum_of (<[i:=x]> l) = sum_of l - deref l i + x.
Proof.
  unfold sum_of, deref.
  revert i. induction l as [| y l IH]; intros i Hi; simpl in Hi; [lia |].
  destruct i as [| i]; simpl; [lia |].
  rewrite IH by lia. lia.
Qed.

Lemma sum_of_replicate (n : nat) (c : Z) : sum_of (replicate n c) = Z.of_nat n * c.
Proof.
  unfold sum_of. induction n as [| n IH]; [done |].
  cbn [replicate foldr]. rewrite IH. lia.
Qed.

Lemma cache_samples_deref (b0 s : Z) (k : nat) :
  0 ≤ b0 < 256 → 0 ≤ s < 256 → (k < 256)%nat →
  deref (cache_samples b0 s) k
  = if decide (Z.of_nat k = s ∨ Z.of_nat k = b0) then 70 else 330.
Proof.
  intros Hb Hs Hk. unfold cache_samples.
  destruct (decide (k = Z.to_nat s)) as [-> | Hns].
  { rewrite deref_insert_eq by (rewrite length_insert, length_replicate; lia).
    by rewrite decide_True by lia. }
  rewrite deref_insert_ne by done.
  destruct (decide (k = Z.to_nat b0)) as [-> | Hnb].
  { rewrite deref_insert_eq by (rewrite length_replicate; lia).
    by rewrite decide_True by lia. }
  rewrite deref_insert_ne, deref_replicate by done.
  by rewrite decide_False by lia.
Qed.

Lemma cache_samples_t_avg (b0 s : Z) :
  0 ≤ b0 < 256 → 0 ≤ s < 256 →
  t_avg_of (cache_samples b0 s) = if decide (s = b0) then 328 else 327.
Proof.
  intros Hb Hs.
  rewrite t_avg_exact_small.
  - unfold cache_samples.
    rewrite sum_of_insert by (rewrite length_insert, length_replicate; lia).
    rewrite sum_of_insert by (rewrite length_replicate; lia).
    rewrite sum_of_replicate, deref_replicate by lia.
    case_decide as Hsb.
    + subst s. rewrite deref_insert_eq by (rewrite length_replicate; lia). done.
    + rewrite deref_insert_ne, deref_replicate by lia. done.
  - unfold cache_samples. by rewrite !length_insert.
  - unfold cache_samples. apply Forall_insert; [| lia]. apply Forall_insert; [| lia].
    apply Forall_replicate. lia.
Qed.

Lemma cache_samples_hits (b0 s i : Z) :
  0 ≤ b0 < 256 → 0 ≤ s < 256 → 0 ≤ i < 256 →
  scores_hit b0 (t_avg_of (cache_samples b0 s)) (cache_samples b0 s) i
  = (i =? s) && negb (i =? b0).
Proof.
  intros Hb Hs Hi. unfold scores_hit.
  rewrite cache_samples_t_avg, cache_samples_deref by lia.
  rewrite Z2Nat.id by lia.
  destruct (Z.eqb_spec i s) as [His | Hns], (Z.eqb_spec i b0) as [Hib | Hnb];
    repeat case_decide; try lia; done.
Qed.

Section CacheAny.
Variable mem : Z → byte.
Variable index : Z.
Hypothesis Hidx : 0 < index.

Local Abbreviation hw := (cache_hw mem).
Local Abbreviation b0 := (byte_val (mem 0)).
Local Abbreviation sec := (byte_val (mem index)).

Lemma line_of_line (k : Z) : line_of (k * CACHE_LINE_SIZE) = k.
Proof. unfold line_of, CACHE_LINE_SIZE. apply Z.div_mul. lia. Qed.

Lemma cache_flush_bits (c : cache_machine) (k : Z) :
  0 ≤ k < 256 → Z.testbit (hot (flush_lines (HW := hw) c)) k = false.
Proof.
  intros Hk. unfold flush_lines.
  apply (for_upto_ind (λ n c', ∀ k, 0 ≤ k < n → Z.testbit (hot c') k = false)
           NUM_LINES); [done | intros; lia | | done].
  intros n t Hn IH k' Hk'.
  cbn [hw_clflush cache_hw]. unfold cm_clflush, element_at_line. cbn [hot].
  rewrite line_of_line, Z.clearbit_eqb.
  destruct (Z.eqb_spec n k') as [-> | Hne]; [apply andb_false_r |].
  rewrite IH by lia. done.
Qed.

Lemma cache_train_iter_hot (n : Z) (t : cache_machine) :
  0 ≤ n →
  hot (train_iter (HW := hw) mem index n t)
  = Z.setbit (hot t) (if decide ((n + 1) mod 10 = 0) then sec else b0).
Proof.
  intros Hn. unfold train_iter, force_read.
  cbn [hw_clflush hw_load hw_stall hw_squash cache_hw].
  rewrite select_index_spec by done.
  case_decide.
  - unfold slow_size_value. destruct (Z.ltb_spec index 1); [lia |]. done.
  - unfold slow_size_value. cbn [Z.ltb Z.compare]. unfold cm_load at 1, element_at_line.
    cbn [hot]. by rewrite line_of_line.
Qed.

Lemma cache_train_bits (c : cache_machine) :
  (∀ k, 0 ≤ k < 256 → Z.testbit (hot c) k = false) →
  ∀ k, 0 ≤ k < 256 →
    Z.testbit (hot (train (HW := hw) mem index c)) k = (k =? b0) || (k =? sec).
Proof.
  intros Hcold k Hk. unfold train.
  pose proof (byte_val_range (mem 0)). pose proof (byte_val_range (mem index)).
  assert (HP : ∀ k, 0 ≤ k < 256 →
    Z.testbit (hot (for_upto 500 (train_iter (HW := hw) mem index) c)) k
    = ((k =? b0) && (0 <? 500)) || ((k =? sec) && (10 <=? 500))).
  { apply (for_upto_ind (λ n c', ∀ k, 0 ≤ k < 256 →
             Z.testbit (hot c') k = ((k =? b0) && (0 <? n)) || ((k =? sec) && (10 <=? n)))
             500); [done | | ].
    - intros k' Hk'. rewrite Hcold by done. by rewrite !andb_false_r.
    - intros n t Hn IH k' Hk'.
      rewrite cache_train_iter_hot by lia. case_decide as Hmod.
      + assert (9 ≤ n).
        { destruct (Z.le_gt_cases 9 n); [done |].
          rewrite Z.mod_small in Hmod by lia. lia. }
        rewrite Z.setbit_eqb, IH by lia.
        destruct (Z.eqb_spec sec k'), (Z.eqb_spec k' sec), (Z.eqb_spec k' b0),
          (Z.ltb_spec 0 n), (Z.ltb_spec 0 (n + 1)), (Z.leb_spec 10 n),
          (Z.leb_spec 10 (n + 1)); (done || lia).
      + assert (n ≠ 9) by (by intros ->).
        rewrite Z.setbit_eqb, IH by lia.
        destruct (Z.eqb_spec b0 k'), (Z.eqb_spec k' sec), (Z.eqb_spec k' b0),
          (Z.ltb_spec 0 n), (Z.ltb_spec 0 (n + 1)), (Z.leb_spec 10 n),
          (Z.leb_spec 10 (n + 1)); (done || lia). }
  rewrite HP by done. by rewrite !andb_true_r.
Qed.

Lemma cache_probe (i : Z) (c : cache_machine) :
  fst (probe (HW := hw) i c) = 30 + (if Z.testbit (hot c) (shuffle i) then 40 else 300)
  ∧ hot (snd (probe (HW := hw) i c)) = Z.setbit (hot c) (shuffle i).
Proof.
  unfold probe, cpu_time, force_read. cbn [hw_rdtscp hw_load cache_hw fst snd].
  unfold cm_load, element_at_line. cbn [hot now]. rewrite line_of_line.
  split; [| done].
  set (lat := if Z.testbit (hot c) (shuffle i) then hit_cycles else miss_cycles).
  replace (now c + 30 + lat) with (30 + lat + now c) by lia.
  replace (wrap64 (now c)) with (wrap64 (0 + now c)) by (f_equal; lia).
  rewrite wrap64_sub_shift. subst lat.
  by destruct (Z.testbit (hot c) (shuffle i)).
Qed.

Lemma cache_probes_bits (c : cache_machine) (n k : Z) :
  0 ≤ n → 0 ≤ k < 256 →
  (∀ i, 0 ≤ i < n → shuffle i ≠ k) →
  Z.testbit (hot (after_probes (HW := hw) n c)) k = Z.testbit (hot c) k.
Proof.
  intros Hn Hk. unfold after_probes.
  apply (for_upto_ind (λ m c', (∀ i, 0 ≤ i < m → shuffle i ≠ k) →
           Z.testbit (hot c') k = Z.testbit (hot c) k) n); [done | done |].
  intros m t Hm IH Hfresh.
  destruct (cache_probe m t) as [_ ->].
  pose proof (shuffle_range m).
  rewrite Z.setbit_eqb by lia.
  destruct (Z.eqb_spec (shuffle m) k) as [Heq | _]; [by apply Hfresh in Heq; lia |].
  apply IH. intros i Hi. apply Hfresh. lia.
Qed.

Lemma cache_measure_times (c : cache_machine) (ts : list Z) (k : Z) :
  length ts = 256%nat → 0 ≤ k < 256 →
  deref (snd (measure (HW := hw) c ts)) (Z.to_nat k)
  = 30 + (if Z.testbit (hot c) k then 40 else 300).
Proof.
  intros Hlen Hk.
  destruct (measure_spec (HW := hw) c ts Hlen) as (_ & _ & Hval).
  pose proof (unshuffle_range k) as Hu.
  rewrite <- (shuffle_unshuffle k) at 1 by done.
  rewrite Hval by done.
  destruct (cache_probe (unshuffle k) (after_probes (HW := hw) (unshuffle k) c)) as [-> _].
  rewrite shuffle_unshuffle by done.
  rewrite cache_probes_bits; [done | lia | done |].
  intros i Hi Heq. assert (Hi' : 0 ≤ i < 256) by lia.
  rewrite <- Heq, unshuffle_shuffle in Hi by done. lia.
Qed.

Lemma cache_round_times (c : cache_machine) (v : locals) :
  length (times v) = 256%nat →
  round_times (HW := hw) mem index c v = cache_samples b0 sec.
Proof.
  intros Hlen. unfold round_times.
  pose proof (byte_val_range (mem 0)). pose proof (byte_val_range (mem index)).
  apply deref_ext.
  { rewrite measure_length by done. unfold cache_samples. by rewrite !length_insert. }
  intros k Hk. rewrite measure_length in Hk by done.
  rewrite <- (Nat2Z.id k) at 1.
  rewrite cache_measure_times by (done || lia).
  rewrite cache_train_bits by (try lia; intros; by apply cache_flush_bits).
  rewrite cache_samples_deref by lia.
  destruct (Z.eqb_spec (Z.of_nat k) b0), (Z.eqb_spec (Z.of_nat k) sec);
    case_decide; (done || lia).
Qed.

Lemma cache_any_times (c : cache_machine) (r : nat) :
  (r < MAX_RUNS)%nat →
  times (snd (after_rounds (HW := hw) mem index (S r) c)) = cache_samples b0 sec.
Proof.
  intros Hr.
  pose proof (after_rounds_wf (HW := hw) mem index r c ltac:(lia)) as (Hlen & _).
  rewrite after_rounds_S.
  destruct (after_rounds (HW := hw) mem index r c) as [c' v].
  rewrite round_times_eq. by apply cache_round_times.
Qed.

Lemma cache_any_recovers (c : cache_machine) :
  sec ≠ 0 → sec ≠ b0 →
  fst (leak_byte (HW := hw) mem index c) = Outcome (wrap8 sec) EmptyString 201.
Proof.
  intros Hs0 Hsb.
  pose proof (byte_val_range (mem 0)). pose proof (byte_val_range (mem index)).
  rewrite (single_hit_wins (HW := hw) mem index c (cache_samples b0 sec)
             (cache_any_times c) sec); [done | lia |].
  intros i Hi. rewrite cache_samples_hits by lia.
  destruct (Z.eqb_spec i sec), (Z.eqb_spec i b0); (done || lia).
Qed.

End CacheAny.

(** X17: on the cache machine (a load hits exactly the probe lines pulled
    in since the last flush, a squashed branch body still pulls in its
    line), for every memory, every positive target index and every
    starting machine: when the byte at the target is neither 0 nor
    [private_data[0]], the call returns exactly that byte, untagged, at
    round 201. *)
Theorem cache_machine_recovers_secret (mem : Z → byte) (index : Z) (c : cache_machine) :
  0 < index →
  byte_val (mem index) ≠ 0 →
  byte_val (mem index) ≠ byte_val (mem 0) →
  fst (leak_byte (HW := cache_hw mem) mem index c)
  = Outcome (wrap8 (byte_val (mem index))) EmptyString 201
  ∧ ret (fst (leak_byte (HW := cache_hw mem) mem index c)) mod 256 = byte_val (mem index).
Proof.
  intros Hidx Hs0 Hsb. rewrite cache_any_recovers by done.
  split; [done |]. cbn [ret]. apply wrap8_byte, byte_val_range.
Qed.

Lemma cache_machine_recovers_secret_witness :
  0 < first_target
  ∧ byte_val (mem_H first_target) ≠ 0
  ∧ byte_val (mem_H first_target) ≠ byte_val (mem_H 0)
  ∧ ret (fst (leak_byte (HW := cache_hw mem_H) mem_H first_target cold)) mod 256
    = byte_val (mem_H first_target).
Proof.
  assert (Hidx : 0 < first_target) by (unfold first_target; lia).
  assert (Hs0 : byte_val (mem_H first_target) ≠ 0) by (vm_compute; discriminate).
  assert (Hsb : byte_val (mem_H first_target) ≠ byte_val (mem_H 0))
    by (vm_compute; discriminate).
  split; [exact Hidx |]. split; [exact Hs0 |]. split; [exact Hsb |].
  exact (proj2 (cache_machine_recovers_secret mem_H first_target cold Hidx Hs0 Hsb)).
Defined.

(** X18: on the same machine, when the byte at a positive target index is
    0 or equals [private_data[0]], the call cannot recover it: it runs
    all 1000 rounds and returns 0 with the tag. *)
Theorem cache_machine_gives_up_on_zero_and_first_byte
    (mem : Z → byte) (index : Z) (c : cache_machine) :
  0 < index →
  byte_val (mem index) = 0 ∨ byte_val (mem index) = byte_val (mem 0) →
  fst (leak_byte (HW := cache_hw mem) mem index c) = Outcome 0 unlikely_tag 1000.
Proof.
  intros Hidx Hs.
  pose proof (byte_val_range (mem 0)). pose proof (byte_val_range (mem index)).
  rewrite (first_entry_runs_dry (HW := cache_hw mem) mem index c
             (cache_samples (byte_val (mem 0)) (byte_val (mem index)))
             (cache_any_times mem index Hidx c)); [done |].
  intros i Hi. rewrite cache_samples_hits by lia.
  destruct (Z.eqb_spec i (byte_val (mem index))), (Z.eqb_spec i (byte_val (mem 0)));
    (done || lia).
Qed.

Lemma cache_machine_gives_up_on_zero_and_first_byte_witness :
  0 < first_target
  ∧ (byte_val (mem_same first_target) = 0
     ∨ byte_val (mem_same first_target) = byte_val (mem_same 0))
  ∧ fst (leak_byte (HW := cache_hw mem_same) mem_same first_target cold)
    = Outcome 0 unlikely_tag 1000.
Proof.
  assert (Hidx : 0 < first_target) by (unfold first_target; lia).
  assert (Hs : byte_val (mem_same first_target) = 0
               ∨ byte_val (mem_same first_target) = byte_val (mem_same 0))
    by (right; reflexivity).
  split; [exact Hidx |]. split; [exact Hs |].
  exact (cache_machine_gives_up_on_zero_and_first_byte mem_same first_target cold Hidx Hs).
Defined.

(** ** [main] *)




Lemma main_iter_on_cache (i : Z) (so : string) (c : cache_machine) :
  0 ≤ i →
  byte_val (main_memory (PAGE_SIZE + i)) ≠ 0 →
  main_iter (HW := cache_hw main_memory) i (so, c)
  = (String.append so (put_char (wrap8 (byte_val (main_memory (PAGE_SIZE + i))))),
     snd (leak_byte (HW := cache_hw main_memory) main_memory (PAGE_SIZE + i) c)).
Proof.
  intros Hi Hs. unfold main_iter.
  pose proof (cache_any_recovers main_memory (PAGE_SIZE + i)
                ltac:(unfold PAGE_SIZE; lia) c Hs Hs) as Hres.
  destruct (leak_byte (HW := cache_hw main_memory) main_memory (PAGE_SIZE + i) c)
    as [res c'].
  cbn [fst snd] in *. by subst res.
Qed.

(** X20: on the cache machine, from any starting machine, the program
    prints exactly "Hello" and a newline, with no tag, when [mprotect]
    succeeds. *)
Theorem main_prints_hello_on_cache_machine (mprotect_result : Z) (c : cache_machine) :
  mprotect_result ≠ -1 →
  ∃ c', main (HW := cache_hw main_memory) mprotect_result c = Returned hello_line c'.
Proof.
  intros Hok. unfold main.
  destruct (Z.eqb_spec mprotect_result (-1)) as [Heq | _]; [by destruct Hok |].
  change 6 with (Z.of_nat 6). rewrite !for_upto_succ, for_upto_0.
  rewrite !main_iter_on_cache by (lia || (vm_compute; discriminate)).
  match goal with
  | |- ∃ c', Returned ?str ?mach = _ =>
      exists mach; apply (f_equal (λ x, Returned x mach)); vm_compute; reflexivity
  end.
Qed.

Lemma main_prints_hello_on_cache_machine_witness :
  0 ≠ -1 ∧ ∃ c', main (HW := cache_hw main_memory) 0 cold = Returned hello_line c'.
Proof.
  assert (Hok : 0 ≠ -1) by discriminate.
  split; [exact Hok |].
  exact (main_prints_hello_on_cache_machine 0 cold Hok).
Defined.
